(** * Ranking-line parser of the fantasy rankings visualizer

    A shallow embedding of [services/geminiService.ts]: the position
    matcher [extractPositionAndRank], the team matcher [isTeam] and the two
    versions of [parseRankingsFromText] (the basic right-to-left scan and the
    team-aware last-two-token lookup), followed by the properties the
    specification states about them.

    Modelling conventions.
    - A JavaScript string is a [string] of 8-bit code units, read as the
      code points U+0000..U+00FF; text with code units beyond U+00FF is
      outside the model.
    - A JavaScript [number] that holds an integer is a [Z]; [NaN] is [None].
      [parseInt] is the integer the digits denote; JavaScript then turns
      it into a double, which is that same integer up to 2^53, the nearest
      double beyond, and [Infinity] from about 1.8e308 on.  Neither is
      [NaN], so the lines that are read and skipped are the same; what is
      said about the value read is said up to 2^53
      ([MAX_EXACT_INTEGER]).
    - [undefined] and [null] are [None]; a method call on them throws.
    - The body of [try { ... }] runs in the exception monad [exn]; the
      promise built around it is [Promise]. *)

From Stdlib Require Import ZArith List Bool Ascii String Lia.
From Stdlib Require Import Sorted Permutation.
Import ListNotations.
Local Open Scope string_scope.
Local Open Scope Z_scope.

(* ------------------------------------------------------------------ *)
(** ** Exceptions and promises *)

Inductive exn (A : Type) : Type :=
| Ret (a : A)
| Throw (e : string).
Arguments Ret {A} a.
Arguments Throw {A} e.

Definition bind {A B : Type} (c : exn A) (k : A -> exn B) : exn B :=
  match c with
  | Ret a => k a
  | Throw e => Throw e
  end.

Notation "x <- c ;; k" := (bind c (fun x => k))
  (at level 61, c at next level, right associativity).

(** Receiver of a method call: [undefined.m()] raises a TypeError. *)
Definition receiver {A : Type} (v : option A) : exn A :=
  match v with
  | Some a => Ret a
  | None => Throw "TypeError"
  end.

Inductive Promise (A : Type) : Type :=
| Resolved (a : A)
| Rejected (message : string).
Arguments Resolved {A} a.
Arguments Rejected {A} message.

(* ------------------------------------------------------------------ *)
(** ** Characters *)

Definition TAB : ascii := "009"%char.
Definition LF : ascii := "010"%char.
Definition SPACE : ascii := " "%char.

Definition code (c : ascii) : nat := nat_of_ascii c.

Definition between (lo hi : nat) (c : ascii) : bool :=
  (Nat.leb lo (code c) && Nat.leb (code c) hi)%bool.

(** [\d] *)
Definition isDigit (c : ascii) : bool := between 48 57 c.

(** [[A-Z]] *)
Definition isUpperAZ (c : ascii) : bool := between 65 90 c.

(** [\s], which is also the set that [trim] and [parseInt] strip: TAB, LF,
    VT, FF, CR, SPACE and, below U+0100, NBSP. *)
Definition isSpace (c : ascii) : bool :=
  (between 9 13 c || Nat.eqb (code c) 32 || Nat.eqb (code c) 160)%bool.

(** Upper-casing of one code unit.  [a-z] and the Latin-1 small letters
    U+00E0..U+00FE (U+00F7, the division sign, apart) move down by 32 and
    U+00DF becomes SS.  The capitals of U+00B5 and U+00FF lie beyond
    U+00FF; they are left in place, which no caller can observe: the
    result is only ever compared with ASCII letters and digits. *)
Definition upperChar (c : ascii) : string :=
  if (between 97 122 c
      || (between 224 254 c && negb (Nat.eqb (code c) 247)))%bool
  then String (ascii_of_nat (code c - 32)) ""
  else if Nat.eqb (code c) 223 then "SS"
  else String c "".

(* ------------------------------------------------------------------ *)
(** ** String primitives *)

Fixpoint toUpperCase (s : string) : string :=
  match s with
  | "" => ""
  | String c r => upperChar c ++ toUpperCase r
  end.

(** [s.startsWith(p)] *)
Definition startsWith (s p : string) : bool := String.prefix p s.

(** [s.substring(n)] for [0 <= n]. *)
Fixpoint substring (s : string) (n : nat) {struct n} : string :=
  match n with
  | O => s
  | S k =>
      match s with
      | "" => ""
      | String _ r => substring r k
      end
  end.

Fixpoint forallb_str (p : ascii -> bool) (s : string) : bool :=
  match s with
  | "" => true
  | String c r => (p c && forallb_str p r)%bool
  end.

(** [/^\d*$/.test(s)] *)
Definition allDigits (s : string) : bool := forallb_str isDigit s.

Fixpoint trimStart (s : string) : string :=
  match s with
  | "" => ""
  | String c r => if isSpace c then trimStart r else s
  end.

Fixpoint trimEnd (s : string) : string :=
  match s with
  | "" => ""
  | String c r =>
      match trimEnd r with
      | "" => if isSpace c then "" else String c ""
      | r' => String c r'
      end
  end.

(** [s.trim()] *)
Definition trim (s : string) : string := trimEnd (trimStart s).

Definition isEmpty (s : string) : bool :=
  match s with
  | "" => true
  | _ => false
  end.

(** Truthiness of a value that is a string, [null] or [undefined]. *)
Definition truthy (v : option string) : bool :=
  match v with
  | Some s => negb (isEmpty s)
  | None => false
  end.

(** [line.replace(/\t/g, ' ')] *)
Fixpoint replaceTabs (s : string) : string :=
  match s with
  | "" => ""
  | String c r => String (if Ascii.eqb c TAB then SPACE else c) (replaceTabs r)
  end.

(** [s.replace(/[.\)]$/, '')]: one trailing "." or ")" is removed. *)
Fixpoint stripRankSuffix (s : string) : string :=
  match s with
  | "" => ""
  | String c "" => if (Ascii.eqb c "." || Ascii.eqb c ")")%bool then "" else s
  | String c r => String c (stripRankSuffix r)
  end.

(** *** [split]

    A separator is given by the length of its match at the head of a string
    ([0]: no match there); all separators used here match at least one
    character.  The pieces are the stretches between the leftmost matches,
    as [String.prototype.split] returns them. *)

Definition consHead (c : ascii) (pieces : list string) : list string :=
  match pieces with
  | [] => [String c ""]
  | p :: ps => String c p :: ps
  end.

Fixpoint splitGo (sepLen : string -> nat) (skip : nat) (s : string)
  : list string :=
  match s with
  | "" => [""]
  | String c r =>
      match skip with
      | S k => splitGo sepLen k r
      | O =>
          match sepLen s with
          | O => consHead c (splitGo sepLen O r)
          | S k => "" :: splitGo sepLen k r
          end
      end
  end.

Definition split (sepLen : string -> nat) (s : string) : list string :=
  splitGo sepLen O s.

(** ['\n'] *)
Definition sepNewline (s : string) : nat :=
  match s with
  | String c _ => if Ascii.eqb c LF then 1%nat else 0%nat
  | "" => 0%nat
  end.

(** [/ vs | @ /] *)
Definition sepMatchup (s : string) : nat :=
  if startsWith s " vs " then 4%nat
  else if startsWith s " @ " then 3%nat
  else 0%nat.

(** [/\s+/]: the whole run of white space at the head. *)
Fixpoint sepSpaces (s : string) : nat :=
  match s with
  | String c r => if isSpace c then S (sepSpaces r) else 0%nat
  | "" => 0%nat
  end.

(* ------------------------------------------------------------------ *)
(** ** Arrays *)

(** [a[i]] *)
Definition at_ {A : Type} (a : list A) (i : Z) : option A :=
  if i <? 0 then None else nth_error a (Z.to_nat i).

Definition relIndex (len k : Z) : Z :=
  if k <? 0 then Z.max (len + k) 0 else Z.min k len.

(** [a.slice(s, e)] *)
Definition slice {A : Type} (a : list A) (s e : Z) : list A :=
  let len := Z.of_nat (List.length a) in
  let k := relIndex len s in
  let f := relIndex len e in
  firstn (Z.to_nat (f - k)) (skipn (Z.to_nat k) a).

(** [a.slice(s)] *)
Definition sliceFrom {A : Type} (a : list A) (s : Z) : list A :=
  slice a s (Z.of_nat (List.length a)).

Definition len {A : Type} (a : list A) : Z := Z.of_nat (List.length a).

(** [a.join(' ')] *)
Definition join (a : list string) : string := String.concat " " a.

(* ------------------------------------------------------------------ *)
(** ** [parseInt(s, 10)] *)

Definition digitValue (c : ascii) : Z := Z.of_nat (code c - 48).

Fixpoint takeDigits (s : string) : string :=
  match s with
  | String c r => if isDigit c then String c (takeDigits r) else ""
  | "" => ""
  end.

Fixpoint decimalFrom (acc : Z) (s : string) : Z :=
  match s with
  | "" => acc
  | String c r => decimalFrom (10 * acc + digitValue c) r
  end.

Definition decimal (s : string) : Z := decimalFrom 0 s.

(** White space is passed over, a sign is taken, and the digits that
    follow are read up to the first other character; no digit there is
    [NaN].  The value is the integer the digits denote (the conversion to
    a double is not applied, see the conventions above). *)
Definition parseInt (s : string) : option Z :=
  let t := trimStart s in
  let '(sign, body) :=
    match t with
    | String "-" r => (-1, r)
    | String "+" r => (1, r)
    | _ => (1, t)
    end in
  match takeDigits body with
  | "" => None
  | ds => Some (sign * decimal ds)
  end.

(* ------------------------------------------------------------------ *)
(** ** Data model ([types.ts]) *)

Record Player : Type := {
  rank : Z;
  name : string;
  position : string;
  positionalRank : option Z;
  team : option string
}.

(** The value [{ base, rank? }] of the position matcher. *)
Module Pos.
Record t : Type := { base : string; rank : option Z }.
End Pos.

Definition BASE_POSITIONS : list string :=
  ["QB"; "RB"; "WR"; "TE"; "K"; "DST"; "DEF"].

(* ------------------------------------------------------------------ *)
(** ** The matchers *)

(** The [for (const pos of BASE_POSITIONS)] loop of
    [extractPositionAndRank]. *)
Fixpoint matchBase (upperPart : string) (codes : list string)
  : option Pos.t :=
  match codes with
  | [] => None
  | pos :: rest =>
      if startsWith upperPart pos then
        let tail := substring upperPart (String.length pos) in
        if allDigits tail then
          Some {| Pos.base := if String.eqb pos "DEF" then "DST" else pos;
                  Pos.rank := parseInt tail |}
        else matchBase upperPart rest
      else matchBase upperPart rest
  end.

Definition extractPositionAndRank (part : option string) : option Pos.t :=
  if negb (truthy part) then None
  else
    match part with
    | Some p => matchBase (toUpperCase p) BASE_POSITIONS
    | None => None
    end.

(** [/^[A-Z]{2,3}$/.test(s)] *)
Definition isTeamShape (s : string) : bool :=
  match s with
  | String a (String b "") => (isUpperAZ a && isUpperAZ b)%bool
  | String a (String b (String c "")) =>
      (isUpperAZ a && isUpperAZ b && isUpperAZ c)%bool
  | _ => false
  end.

Definition isTeam (part : option string) : bool :=
  if negb (truthy part) then false
  else
    match part with
    | Some p => isTeamShape p
    | None => false
    end.

Definition mkPlayer (r : Z) (n : string) (p : Pos.t) (t : option string)
  : Player :=
  {| rank := r; name := n; position := Pos.base p;
     positionalRank := Pos.rank p; team := t |}.

(** [players.push(p)] when the line produced a record. *)
Definition push (players : list Player) (r : option Player) : list Player :=
  match r with
  | Some p => players ++ [p]
  | None => players
  end.

(** [text.split('\n').filter(line => line.trim() !== '')] *)
Definition linesOf (text : string) : list string :=
  filter (fun line => negb (isEmpty (trim line))) (split sepNewline text).

Definition FAILED : string :=
  "Failed to parse rankings from text. Please check the format.".

(** [new Promise((resolve, reject) => { try { ... resolve(players) }
    catch { reject(new Error(...)) } })] *)
Definition settle {A : Type} (body : exn A) : Promise A :=
  match body with
  | Ret a => Resolved a
  | Throw _ => Rejected FAILED
  end.

(* ------------------------------------------------------------------ *)
(** ** The basic parser (first version of the file) *)

Module Basic.

(** [line.split(/ vs | @ /)[0]] *)
Definition cleanLine (line : string) : option string :=
  at_ (split sepMatchup line) 0.

(** [cleanLine.trim().split(/\s+/)] *)
Definition partsOf (line : string) : exn (list string) :=
  c <- receiver (cleanLine line) ;;
  Ret (split sepSpaces (trim c)).

(** The loop [for (let i = n - 1; i >= 0; i--)], entered with [n] the
    number of candidates still to visit. *)
Fixpoint findPosition (potentialNameParts : list string) (n : nat)
  : option Pos.t * Z :=
  match n with
  | O => (None, -1)
  | S i =>
      match extractPositionAndRank (at_ potentialNameParts (Z.of_nat i)) with
      | Some pos => (Some pos, Z.of_nat i)
      | None => findPosition potentialNameParts i
      end
  end.

(** The statements after the tokenizer, for one line. *)
Definition classify (parts : list string) : exn (option Player) :=
  if len parts <? 2 then Ret None
  else
    p0 <- receiver (at_ parts 0) ;;
    let rankStr := stripRankSuffix p0 in
    match parseInt rankStr with
    | None => Ret None
    | Some rank =>
        let potentialNameParts := sliceFrom parts 1 in
        let '(positionInfo, positionPartIndex) :=
          findPosition potentialNameParts
                       (List.length potentialNameParts) in
        match positionInfo with
        | Some info =>
            let finalNameParts :=
              slice potentialNameParts 0 positionPartIndex in
            let name := join finalNameParts in
            if negb (isEmpty name)
            then Ret (Some (mkPlayer rank name info None))
            else Ret None
        | None => Ret None
        end
    end.

(** The body of [for (const line of lines)]: [Some] is the record pushed,
    [None] a line that is passed over. *)
Definition parseLine (line : string) : exn (option Player) :=
  parts <- partsOf line ;;
  classify parts.

Fixpoint forLines (players : list Player) (lines : list string)
  : exn (list Player) :=
  match lines with
  | [] => Ret players
  | line :: rest =>
      r <- parseLine line ;;
      forLines (push players r) rest
  end.

Definition parseRankingsFromText (text : string) : Promise (list Player) :=
  settle (forLines [] (linesOf text)).

End Basic.

(* ------------------------------------------------------------------ *)
(** ** The team-aware parser (second version of the file) *)

Module TeamAware.

(** [line.replace(/\t/g, ' ').split(/ vs | @ /)[0]] *)
Definition cleanLine (line : string) : option string :=
  let tabsReplaced := replaceTabs line in
  at_ (split sepMatchup tabsReplaced) 0.

(** [cleanLine.trim().split(/\s+/)] *)
Definition partsOf (line : string) : exn (list string) :=
  c <- receiver (cleanLine line) ;;
  Ret (split sepSpaces (trim c)).

(** The [if (p1_pos) ... else if (p1_team) ...] statement: the values of
    [positionInfo], [teamInfo] and [nameEndIndex] after it. *)
Definition resolve (potentialNameParts : list string)
  : exn (option Pos.t * option string * Z) :=
  let nameEndIndex := len potentialNameParts in
  let p1 := at_ potentialNameParts (nameEndIndex - 1) in
  let p2 := if nameEndIndex >? 1
            then at_ potentialNameParts (nameEndIndex - 2)
            else None in
  let p1_pos := extractPositionAndRank p1 in
  let p1_team := isTeam p1 in
  let p2_pos := if truthy p2 then extractPositionAndRank p2 else None in
  let p2_team := if truthy p2 then isTeam p2 else false in
  match p1_pos with
  | Some info =>
      if p2_team then
        t <- receiver p2 ;;
        Ret (Some info, Some (toUpperCase t), nameEndIndex - 2)
      else Ret (Some info, None, nameEndIndex - 1)
  | None =>
      if p1_team then
        t <- receiver p1 ;;
        match p2_pos with
        | Some info => Ret (Some info, Some (toUpperCase t), nameEndIndex - 2)
        | None => Ret (None, Some (toUpperCase t), nameEndIndex)
        end
      else Ret (None, None, nameEndIndex)
  end.

(** The statements after the tokenizer, for one line. *)
Definition classify (parts : list string) : exn (option Player) :=
  if len parts <? 2 then Ret None
  else
    p0 <- receiver (at_ parts 0) ;;
    let rankStr := stripRankSuffix p0 in
    match parseInt rankStr with
    | None => Ret None
    | Some rank =>
        let potentialNameParts := sliceFrom parts 1 in
        if len potentialNameParts =? 0 then Ret None
        else
          r <- resolve potentialNameParts ;;
          let '(positionInfo, teamInfo, nameEndIndex) := r in
          match positionInfo with
          | Some info =>
              if nameEndIndex >? 0 then
                let name := join (slice potentialNameParts 0 nameEndIndex) in
                Ret (Some (mkPlayer rank name info teamInfo))
              else Ret None
          | None => Ret None
          end
    end.

(** The body of [for (const line of lines)]: [Some] is the record pushed,
    [None] a line that is passed over. *)
Definition parseLine (line : string) : exn (option Player) :=
  parts <- partsOf line ;;
  classify parts.

Fixpoint forLines (players : list Player) (lines : list string)
  : exn (list Player) :=
  match lines with
  | [] => Ret players
  | line :: rest =>
      r <- parseLine line ;;
      forLines (push players r) rest
  end.

Definition parseRankingsFromText (text : string) : Promise (list Player) :=
  settle (forLines [] (linesOf text)).

End TeamAware.

(* ------------------------------------------------------------------ *)
(** ** Vocabulary of the statements *)

(** The records one line adds to [players]. *)
Definition emitted (parseLine : string -> exn (option Player))
    (line : string) : list Player :=
  match parseLine line with
  | Ret (Some p) => [p]
  | _ => []
  end.

(** The closed set of position codes of an emitted record. *)
Definition POSITION_CODES : list string :=
  ["QB"; "RB"; "WR"; "TE"; "K"; "DST"].

Definition MATCHUPS : list string := [" vs "; " @ "].

(** [sep] occurs in [s] at offset [n]. *)
Definition occursAt (sep s : string) (n : nat) : Prop :=
  exists pre post, s = pre ++ sep ++ post /\ String.length pre = n.

(** [cut] is [s] truncated at the first occurrence of a matchup separator:
    all of [s] when there is none, else the text before the leftmost one. *)
Definition FirstMatchupCut (s cut : string) : Prop :=
  (cut = s /\ forall sep n, In sep MATCHUPS -> ~ occursAt sep s n)
  \/ (exists sep post,
        In sep MATCHUPS /\ s = cut ++ sep ++ post
        /\ forall sep' n, In sep' MATCHUPS -> occursAt sep' s n ->
                          (String.length cut <= n)%nat).

Definition allSpace (s : string) : bool := forallb_str isSpace s.

Definition noTab (s : string) : bool :=
  forallb_str (fun c => negb (Ascii.eqb c TAB)) s.

(** The characters of [s] before its first white space. *)
Fixpoint takeToken (s : string) : string :=
  match s with
  | "" => ""
  | String c r => if isSpace c then "" else String c (takeToken r)
  end.

(** The first white-space delimited token of a line ([""] if none). *)
Definition firstToken (line : string) : string :=
  hd "" (split sepSpaces (trim line)).

(** Every integer up to this one is a double, so that a value read by
    [parseInt] is exactly what JavaScript holds. *)
Definition MAX_EXACT_INTEGER : Z := 2 ^ 53.

(** A token without its sign, if it has one. *)
Definition signedBody (s : string) : string :=
  match s with
  | String "-" r => r
  | String "+" r => r
  | _ => s
  end.

(** "Parses as an integer", read to the letter: an optional sign, then
    digits and nothing else, at least one. *)
Definition isIntegerText (s : string) : bool :=
  (negb (isEmpty (signedBody s)) && allDigits (signedBody s))%bool.

(** The token begins with an integer: an optional sign, then a digit. *)
Definition beginsWithInteger (s : string) : bool :=
  match signedBody s with
  | String c _ => isDigit c
  | "" => false
  end.

(** A record as the data model describes it. *)
Definition DescribedRecord (p : Player) : Prop :=
  0 < rank p
  /\ name p <> ""
  /\ In (position p) POSITION_CODES
  /\ forall k, positionalRank p = Some k -> 0 < k.

(** A record as the parser builds it. *)
Definition BuiltRecord (p : Player) : Prop :=
  name p <> ""
  /\ In (position p) POSITION_CODES
  /\ forall k, positionalRank p = Some k -> 0 <= k.

(** A record with its team forgotten. *)
Definition withoutTeam (p : Player) : Player :=
  {| rank := rank p; name := name p; position := position p;
     positionalRank := positionalRank p; team := None |}.

(** The normalisation the matcher applies to a base code. *)
Definition canonical (pos : string) : string :=
  if String.eqb pos "DEF" then "DST" else pos.

(** Two lines joined by a line feed. *)
Definition nl (a b : string) : string := a ++ String LF b.

(** The records of the specification's examples. *)
Definition mahomes : Player :=
  {| rank := 5; name := "Patrick Mahomes"; position := "QB";
     positionalRank := Some 1; team := Some "KC" |}.

Definition jefferson : Player :=
  {| rank := 12; name := "Justin Jefferson"; position := "WR";
     positionalRank := Some 1; team := None |}.

(** The Jefferson line as a tab-separated paste gives it. *)
Definition jeffersonTabbed : string :=
  "12 Justin Jefferson WR1" ++ String TAB ("vs" ++ String TAB "GB").

(** A token: non-empty and free of white space. *)
Definition isWord (s : string) : bool :=
  (negb (isEmpty s) && forallb_str (fun c => negb (isSpace c)) s)%bool.

(** The three endings of a line the team-aware lookup accepts, after the
    rank token and the name tokens [names]: the position alone, the team
    then the position, the position then the team. *)
Inductive Layout (names : list string) (info : Pos.t)
  : list string -> option string -> Prop :=
| PositionOnly (pos : string) :
    extractPositionAndRank (Some pos) = Some info ->
    isTeam (at_ names (len names - 1)) = false ->
    Layout names info (names ++ [pos])%list None
| TeamPosition (t pos : string) :
    isTeam (Some t) = true ->
    extractPositionAndRank (Some pos) = Some info ->
    Layout names info (names ++ [t; pos])%list (Some t)
| PositionTeam (pos t : string) :
    isTeam (Some t) = true ->
    extractPositionAndRank (Some t) = None ->
    extractPositionAndRank (Some pos) = Some info ->
    Layout names info (names ++ [pos; t])%list (Some t).

(* ------------------------------------------------------------------ *)
(** ** The application ([App.tsx], [constants.ts]) *)

Module Team.
Record t : Type := {
  name : string;
  players : list string;
  (** [TEAM_COLORS[i]]: [undefined] were the index out of range. *)
  color : option string
}.
End Team.

Definition TEAM_COLORS : list string :=
  ["#0ea5e9"; "#10b981"; "#f43f5e"; "#f59e0b";
   "#8b5cf6"; "#84cc16"; "#ec4899"; "#14b8a6"].

Definition POSITIONS_TO_DISPLAY : list string :=
  ["QB"; "RB"; "WR"; "TE"; "K"; "DST"].

(** *** [Set<string>]: the elements in insertion order, none twice *)

(** [s.has(x)], also [a.includes(x)] on an array. *)
Definition setHas (s : list string) (x : string) : bool :=
  existsb (String.eqb x) s.

(** [s.add(x)] *)
Definition setAdd (s : list string) (x : string) : list string :=
  if setHas s x then s else (s ++ [x])%list.

(** [s.delete(x)] *)
Definition setDelete (s : list string) (x : string) : list string :=
  filter (fun y => negb (String.eqb y x)) s.

(** [new Set(a)] *)
Definition newSet (a : list string) : list string := fold_left setAdd a [].

(** The updater shared by [handleToggleFavorite] and [handleToggleTeam]:
    [prev => { const s = new Set(prev); if (s.has(x)) s.delete(x); else
    s.add(x); return Array.from(s); }]. *)
Definition toggled (x : string) (prev : list string) : list string :=
  let s := newSet prev in
  if setHas s x then setDelete s x else setAdd s x.

(** *** [toLowerCase] and [sort] *)

(** Lower-casing of one code unit: [A-Z] and the Latin-1 capitals
    U+00C0..U+00DE (U+00D7, the multiplication sign, apart) move up by
    32. *)
Definition lowerChar (c : ascii) : ascii :=
  if (between 65 90 c
      || (between 192 222 c && negb (Nat.eqb (code c) 215)))%bool
  then ascii_of_nat (code c + 32)
  else c.

Fixpoint toLowerCase (s : string) : string :=
  match s with
  | "" => ""
  | String c r => String (lowerChar c) (toLowerCase r)
  end.

(** [Array.prototype.sort] is stable: an element goes before the first
    element it is not greater than. *)
Fixpoint insertBy {A : Type} (le : A -> A -> bool) (x : A) (l : list A)
  : list A :=
  match l with
  | [] => [x]
  | y :: r => if le x y then x :: l else y :: insertBy le x r
  end.

Definition sortBy {A : Type} (le : A -> A -> bool) (l : list A) : list A :=
  fold_right (insertBy le) [] l.

(** [[...a].sort()] on strings: by code units. *)
Definition sortStrings (a : list string) : list string :=
  sortBy String.leb a.

(** [(a, b) => a.rank - b.rank] is not positive. *)
Definition byRank (a b : Player) : bool := rank a - rank b <=? 0.

(** *** Teams and favourites *)

Record Selection : Type := {
  teams : list Team.t;
  favoriteNames : list string;
  activeTeamNames : list string;
  newTeamName : string
}.

(** The defaults given to [useLocalStorage] and [useState]. *)
Definition initialSelection : Selection :=
  {| teams := []; favoriteNames := []; activeTeamNames := [];
     newTeamName := "" |}.

Inductive Outcome : Type :=
| Alerted (message : string)
| Updated (sel : Selection).

Definition handleCreateTeam (sel : Selection) : Outcome :=
  let trimmedName := trim (newTeamName sel) in
  if len (favoriteNames sel) =? 0 then
    Alerted "Please favorite players (using the star icon) to create a team."
  else if isEmpty trimmedName then
    Alerted "Please enter a team name."
  else if existsb (fun team =>
                     String.eqb (toLowerCase (Team.name team))
                                (toLowerCase trimmedName))
                  (teams sel) then
    Alerted "A team with this name already exists."
  else
    let newTeam :=
      {| Team.name := trimmedName;
         Team.players := sortStrings (favoriteNames sel);
         Team.color :=
           at_ TEAM_COLORS (Z.rem (len (teams sel)) (len TEAM_COLORS)) |} in
    Updated {| teams := (teams sel ++ [newTeam])%list;
               favoriteNames := [];
               activeTeamNames := activeTeamNames sel;
               newTeamName := "" |}.

Definition handleDeleteTeam (teamNameToDelete : string) (sel : Selection)
  : Selection :=
  {| teams :=
       filter (fun team =>
                 negb (String.eqb (Team.name team) teamNameToDelete))
              (teams sel);
     favoriteNames := favoriteNames sel;
     activeTeamNames :=
       filter (fun name => negb (String.eqb name teamNameToDelete))
              (activeTeamNames sel);
     newTeamName := newTeamName sel |}.

Definition handleToggleTeam (teamName : string) (sel : Selection)
  : Selection :=
  {| teams := teams sel;
     favoriteNames := favoriteNames sel;
     activeTeamNames := toggled teamName (activeTeamNames sel);
     newTeamName := newTeamName sel |}.

Definition handleToggleFavorite (playerName : string) (sel : Selection)
  : Selection :=
  {| teams := teams sel;
     favoriteNames := toggled playerName (favoriteNames sel);
     activeTeamNames := activeTeamNames sel;
     newTeamName := newTeamName sel |}.

(** [onChange={(e) => setNewTeamName(e.target.value)}] *)
Definition setNewTeamName (value : string) (sel : Selection) : Selection :=
  {| teams := teams sel;
     favoriteNames := favoriteNames sel;
     activeTeamNames := activeTeamNames sel;
     newTeamName := value |}.

(** What the user can do to the selection. *)
Inductive Event : Type :=
| TypeTeamName (value : string)
| SubmitTeam
| DeleteTeam (teamName : string)
| ToggleTeam (teamName : string)
| ToggleFavorite (playerName : string).

(** The delete and toggle buttons are rendered once per saved team, with
    that team's name. *)
Definition offered (sel : Selection) (e : Event) : Prop :=
  match e with
  | DeleteTeam n | ToggleTeam n => In n (map Team.name (teams sel))
  | _ => True
  end.

Definition react (sel : Selection) (e : Event) : Selection :=
  match e with
  | TypeTeamName v => setNewTeamName v sel
  | SubmitTeam =>
      match handleCreateTeam sel with
      | Updated sel' => sel'
      | Alerted _ => sel
      end
  | DeleteTeam n => handleDeleteTeam n sel
  | ToggleTeam n => handleToggleTeam n sel
  | ToggleFavorite n => handleToggleFavorite n sel
  end.

Inductive Reachable : Selection -> Prop :=
| ReachInitial : Reachable initialSelection
| ReachStep (sel : Selection) (e : Event) :
    Reachable sel -> offered sel e -> Reachable (react sel e).

(** A saved team as [handleCreateTeam] builds it. *)
Definition TeamOk (t : Team.t) : Prop :=
  Team.name t <> ""
  /\ trim (Team.name t) = Team.name t
  /\ Team.players t <> []
  /\ NoDup (Team.players t)
  /\ Sorted.Sorted (fun a b => String.leb a b = true) (Team.players t)
  /\ exists c, Team.color t = Some c /\ In c TEAM_COLORS.

Definition SelectionOk (sel : Selection) : Prop :=
  NoDup (map (fun t => toLowerCase (Team.name t)) (teams sel))
  /\ Forall TeamOk (teams sel)
  /\ NoDup (favoriteNames sel)
  /\ NoDup (activeTeamNames sel)
  /\ incl (activeTeamNames sel) (map Team.name (teams sel)).

(** *** What is displayed *)

(** [teams.filter(team => activeTeamNames.includes(team.name))] *)
Definition activeTeams (sel : Selection) : list Team.t :=
  filter (fun team => setHas (activeTeamNames sel) (Team.name team))
         (teams sel).

(** The [activeTeamPlayerNames] memo. *)
Definition activeTeamPlayerNames (sel : Selection) : list string :=
  fold_left
    (fun playerSet team => fold_left setAdd (Team.players team) playerSet)
    (activeTeams sel) [].

(** The [filteredPlayers] memo. *)
Definition filteredPlayers (players : list Player)
    (hideUnselectedPlayers : bool) (sel : Selection) : list Player :=
  if negb hideUnselectedPlayers then players
  else
    let favoritesSet := newSet (favoriteNames sel) in
    filter (fun player =>
              (setHas favoritesSet (name player)
               || setHas (activeTeamPlayerNames sel) (name player))%bool)
           players.

(** *** [Record<string, V>]

    The own properties of an object literal that starts as [{}]. *)

(** The own property [k], if there is one. *)
Fixpoint lookup {V : Type} (g : list (string * V)) (k : string) : option V :=
  match g with
  | [] => None
  | (k', v) :: r => if String.eqb k' k then Some v else lookup r k
  end.

(** [g[k] = v] *)
Fixpoint assign {V : Type} (g : list (string * V)) (k : string) (v : V)
  : list (string * V) :=
  match g with
  | [] => [(k, v)]
  | (k', v') :: r =>
      if String.eqb k' k then (k, v) :: r else (k', v') :: assign r k v
  end.

(** The members every object inherits from [Object.prototype].  Reading
    [g[k]] at one of these names, when [g] has no own property [k], gives
    the inherited member: a truthy value that is not an array. *)
Definition OBJECT_PROTOTYPE : list string :=
  ["constructor"; "__defineGetter__"; "__defineSetter__"; "hasOwnProperty";
   "__lookupGetter__"; "__lookupSetter__"; "isPrototypeOf";
   "propertyIsEnumerable"; "toString"; "valueOf"; "__proto__";
   "toLocaleString"].

(** [grouped] of [playersByPosition].  It is read at the result of
    [toUpperCase] only, which is never a name of [OBJECT_PROTOTYPE] (each
    of those holds a lower-case letter), so a read is an own property or
    [undefined]. *)
Definition Grouped : Type := list (string * list Player).

(** The [playersByPosition] memo. *)
Definition playersByPosition (filtered : list Player) : Grouped :=
  let grouped : Grouped :=
    fold_left (fun g pos => assign g pos []) POSITIONS_TO_DISPLAY [] in
  let sortedByRank := sortBy byRank filtered in
  fold_left
    (fun g player =>
       let upperPos := toUpperCase (position player) in
       match lookup g upperPos with
       | Some group => assign g upperPos (group ++ [player])%list
       | None => g
       end)
    sortedByRank grouped.

(** The table rendered for [pos]: [playersByPosition[pos]], none when that
    is missing or empty. *)
Definition displayed (filtered : list Player) (pos : string) : list Player :=
  match lookup (playersByPosition filtered) pos with
  | Some group => group
  | None => []
  end.

(** *** The [playerHighlightColors] memo *)

Definition ColorMap : Type := list (string * list (option string)).

(** The body of the inner loop:
    [if (!colorMap[playerName]) colorMap[playerName] = [];
     colorMap[playerName].push(team.color)].
    At an inherited name the test finds a truthy member and [push], which
    that member lacks, is called on it. *)
Definition addColor (colorMap : ColorMap) (playerName : string)
    (color : option string) : exn ColorMap :=
  match lookup colorMap playerName with
  | Some colors => Ret (assign colorMap playerName (colors ++ [color])%list)
  | None =>
      if setHas OBJECT_PROTOTYPE playerName
      then Throw "TypeError"
      else Ret (assign colorMap playerName [color])
  end.

(** [for (const playerName of team.players)] *)
Fixpoint forPlayers (colorMap : ColorMap) (names : list string)
    (color : option string) : exn ColorMap :=
  match names with
  | [] => Ret colorMap
  | playerName :: rest =>
      m <- addColor colorMap playerName color ;;
      forPlayers m rest color
  end.

(** [for (const team of activeTeams)] *)
Fixpoint forTeams (colorMap : ColorMap) (ts : list Team.t) : exn ColorMap :=
  match ts with
  | [] => Ret colorMap
  | team :: rest =>
      m <- forPlayers colorMap (Team.players team) (Team.color team) ;;
      forTeams m rest
  end.

Definition playerHighlightColors (sel : Selection) : exn ColorMap :=
  forTeams [] (activeTeams sel).

(** The colours of the teams of [ts] that list [playerName], in the order
    of the teams, once per listing. *)
Definition colorsOf (playerName : string) (ts : list Team.t)
  : list (option string) :=
  flat_map
    (fun t => map (fun _ => Team.color t)
                  (filter (String.eqb playerName) (Team.players t)))
    ts.

(** No player of these teams bears the name of an inherited member. *)
Definition plainNames (ts : list Team.t) : bool :=
  forallb (fun t => forallb (fun n => negb (setHas OBJECT_PROTOTYPE n))
                            (Team.players t))
          ts.

(** The array at a name after [extra] has been pushed on it, one element
    at a time, the array being created at the first push. *)
Definition pushed {C : Type} (before : option (list C)) (extra : list C)
  : option (list C) :=
  match extra with
  | [] => before
  | _ => Some (match before with
               | Some colors => colors
               | None => []
               end ++ extra)%list
  end.

(** *** Submitting the text *)

Record Rankings : Type := {
  players : list Player;
  isLoading : bool;
  error : option string
}.

(** [handleSubmitRankings], from the click to the end of [finally]. *)
Definition handleSubmitRankings
    (parse : string -> Promise (list Player)) (text : string) : Rankings :=
  match parse text with
  | Resolved rankings =>
      {| players := rankings; isLoading := false; error := None |}
  | Rejected message =>
      {| players := []; isLoading := false;
         error := Some (if isEmpty message
                        then "An unknown error occurred."
                        else message) |}
  end.

(** Case analysis on the eight bits of a character. *)
Ltac ascii_cases c :=
  destruct c as [[] [] [] [] [] [] [] []].

(* ------------------------------------------------------------------ *)
(** ** Arrays and [split]: basic facts *)

Lemma consHead_cons (c : ascii) (l : list string) :
  exists p ps, consHead c l = String c p :: ps.
Proof. destruct l as [|p ps]; simpl; eauto. Qed.

Lemma splitGo_cons (sepLen : string -> nat) (s : string) :
  forall k, exists p ps, splitGo sepLen k s = p :: ps.
Proof.
  induction s as [|c r IH]; intros k; simpl.
  - eauto.
  - destruct k as [|k]; [|apply IH].
    destruct (sepLen (String c r)); [|eauto].
    destruct (consHead_cons c (splitGo sepLen 0 r)) as (p & ps & ->). eauto.
Qed.

Lemma at_tl {A : Type} (l : list A) (i : Z) :
  0 <= i -> at_ (tl l) i = at_ l (i + 1).
Proof.
  intros Hi. unfold at_.
  destruct (Z.ltb_spec i 0); [lia|].
  destruct (Z.ltb_spec (i + 1) 0); [lia|].
  replace (Z.to_nat (i + 1)) with (S (Z.to_nat i)) by lia.
  destruct l as [|x l]; simpl; [|reflexivity].
  destruct (Z.to_nat i); reflexivity.
Qed.

Lemma sliceFrom_1 {A : Type} (l : list A) : sliceFrom l 1 = tl l.
Proof.
  unfold sliceFrom, slice, relIndex. destruct l as [|x l]; [reflexivity|].
  cbn [List.length tl].
  replace (1 <? 0) with false by reflexivity.
  destruct (Z.ltb_spec (Z.of_nat (S (List.length l))) 0); [lia|].
  rewrite Z.min_id.
  replace (Z.min 1 (Z.of_nat (S (List.length l)))) with 1 by lia.
  replace (Z.to_nat 1) with 1%nat by reflexivity.
  replace (Z.to_nat (Z.of_nat (S (List.length l)) - 1))
    with (List.length l) by lia.
  simpl skipn. apply firstn_all.
Qed.

Lemma slice_0 {A : Type} (l : list A) (k : Z) :
  0 <= k <= len l -> slice l 0 k = firstn (Z.to_nat k) l.
Proof.
  intros Hk. unfold slice, relIndex, len in *.
  replace (0 <? 0) with false by reflexivity.
  destruct (Z.ltb_spec k 0); [lia|].
  rewrite Z.min_l by lia. rewrite Z.min_l by lia.
  rewrite Z.sub_0_r. reflexivity.
Qed.

Lemma len_tl {A : Type} (l : list A) : 1 <= len l -> len (tl l) = len l - 1.
Proof. unfold len. destruct l; simpl List.length; lia. Qed.

(* ------------------------------------------------------------------ *)
(** ** No statement of the loop body throws *)

Lemma isTeam_Some (v : option string) :
  isTeam v = true -> exists p, v = Some p.
Proof. destruct v; [eauto | discriminate]. Qed.

Lemma basic_cleanLine_defined (line : string) :
  exists c, Basic.cleanLine line = Some c.
Proof.
  unfold Basic.cleanLine, split.
  destruct (splitGo_cons sepMatchup line 0%nat) as (p & ps & ->).
  exists p. reflexivity.
Qed.

Lemma aware_cleanLine_defined (line : string) :
  exists c, TeamAware.cleanLine line = Some c.
Proof.
  unfold TeamAware.cleanLine, split.
  destruct (splitGo_cons sepMatchup (replaceTabs line) 0%nat) as (p & ps & ->).
  exists p. reflexivity.
Qed.

Lemma at_0_defined {A : Type} (l : list A) :
  (len l <? 2) = false -> exists x, at_ l 0 = Some x.
Proof.
  unfold len. destruct l as [|x l]; [discriminate|].
  intros _. exists x. reflexivity.
Qed.

Lemma aware_resolve_total (ps : list string) :
  exists r, TeamAware.resolve ps = Ret r.
Proof.
  unfold TeamAware.resolve.
  generalize (at_ ps (len ps - 1)) as p1.
  generalize (if len ps >? 1 then at_ ps (len ps - 2) else None) as p2.
  intros p2 p1.
  destruct (extractPositionAndRank p1).
  - destruct (truthy p2) eqn:T2; [|eauto].
    destruct (isTeam p2) eqn:I2; [|eauto].
    destruct (isTeam_Some _ I2) as (tm & ->). simpl. eauto.
  - destruct (isTeam p1) eqn:I1; [|eauto].
    destruct (isTeam_Some _ I1) as (tm & ->). simpl.
    destruct (if truthy p2 then extractPositionAndRank p2 else None); eauto.
Qed.

Lemma aware_classify_total (parts : list string) :
  exists r, TeamAware.classify parts = Ret r.
Proof.
  unfold TeamAware.classify.
  destruct (len parts <? 2) eqn:L; [eauto|].
  destruct (at_0_defined _ L) as (p0 & ->). simpl.
  destruct (parseInt (stripRankSuffix p0)); [|eauto].
  destruct (len (sliceFrom parts 1) =? 0); [eauto|].
  destruct (aware_resolve_total (sliceFrom parts 1)) as ([[pi ti] n] & ->).
  simpl. destruct pi; [|eauto]. destruct (n >? 0); eauto.
Qed.

Lemma aware_parseLine_total (line : string) :
  exists r, TeamAware.parseLine line = Ret r.
Proof.
  unfold TeamAware.parseLine, TeamAware.partsOf.
  destruct (aware_cleanLine_defined line) as (c & ->). simpl.
  apply aware_classify_total.
Qed.

Lemma basic_classify_total (parts : list string) :
  exists r, Basic.classify parts = Ret r.
Proof.
  unfold Basic.classify.
  destruct (len parts <? 2) eqn:L; [eauto|].
  destruct (at_0_defined _ L) as (p0 & ->). simpl.
  destruct (parseInt (stripRankSuffix p0)); [|eauto].
  destruct (Basic.findPosition _ _) as [[info|] i]; [|eauto].
  destruct (negb _); eauto.
Qed.

Lemma basic_parseLine_total (line : string) :
  exists r, Basic.parseLine line = Ret r.
Proof.
  unfold Basic.parseLine, Basic.partsOf.
  destruct (basic_cleanLine_defined line) as (c & ->). simpl.
  apply basic_classify_total.
Qed.

(** The loop pushes, line after line, what each line emits. *)
Lemma aware_forLines_spec (lines : list string) :
  forall players,
    TeamAware.forLines players lines
    = Ret (players ++ flat_map (emitted TeamAware.parseLine) lines)%list.
Proof.
  induction lines as [|l ls IH]; intros players; simpl.
  - now rewrite app_nil_r.
  - unfold emitted at 1.
    destruct (aware_parseLine_total l) as (r & ->). simpl.
    rewrite IH. destruct r; simpl; [|reflexivity].
    now rewrite <- app_assoc.
Qed.

Lemma basic_forLines_spec (lines : list string) :
  forall players,
    Basic.forLines players lines
    = Ret (players ++ flat_map (emitted Basic.parseLine) lines)%list.
Proof.
  induction lines as [|l ls IH]; intros players; simpl.
  - now rewrite app_nil_r.
  - unfold emitted at 1.
    destruct (basic_parseLine_total l) as (r & ->). simpl.
    rewrite IH. destruct r; simpl; [|reflexivity].
    now rewrite <- app_assoc.
Qed.

(* ------------------------------------------------------------------ *)
(** ** White space, [trim] and blank lines *)

Lemma trimEnd_empty (t : string) : trimEnd t = "" -> allSpace t = true.
Proof.
  unfold allSpace. induction t as [|c r IH]; simpl; [reflexivity|].
  destruct (trimEnd r); [|discriminate].
  destruct (isSpace c); [|discriminate].
  intros _. now apply IH.
Qed.

Lemma trimStart_allSpace (s : string) :
  allSpace (trimStart s) = true -> allSpace s = true.
Proof.
  unfold allSpace. induction s as [|c r IH]; simpl; [reflexivity|].
  destruct (isSpace c) eqn:Hc; simpl.
  - exact IH.
  - rewrite Hc. discriminate.
Qed.

Lemma allSpace_trimStart (s : string) : allSpace s = true -> trimStart s = "".
Proof.
  unfold allSpace. induction s as [|c r IH]; simpl; [reflexivity|].
  intros H. apply andb_prop in H as [Hc Hr]. now rewrite Hc, IH.
Qed.

Lemma trim_blank (s : string) : isEmpty (trim s) = true <-> allSpace s = true.
Proof.
  unfold trim. split.
  - intros H. apply trimStart_allSpace, trimEnd_empty.
    destruct (trimEnd (trimStart s)); [reflexivity | discriminate].
  - intros H. now rewrite (allSpace_trimStart _ H).
Qed.

Lemma allSpace_consHead (c : ascii) (l : list string) :
  isSpace c = true ->
  Forall (fun p => allSpace p = true) l ->
  Forall (fun p => allSpace p = true) (consHead c l).
Proof.
  unfold allSpace. intros Hc Hl. destruct l as [|p ps]; simpl.
  - constructor; [simpl; now rewrite Hc | constructor].
  - inversion Hl; subst. constructor; [simpl; now rewrite Hc | assumption].
Qed.

(** Every piece of a blank string is blank, whatever the separator. *)
Lemma allSpace_pieces (sepLen : string -> nat) (s : string) :
  allSpace s = true ->
  forall k, Forall (fun p => allSpace p = true) (splitGo sepLen k s).
Proof.
  unfold allSpace. induction s as [|c r IH]; simpl; intros H k.
  - repeat constructor.
  - apply andb_prop in H as [Hc Hr].
    destruct k as [|k]; [|now apply IH].
    destruct (sepLen (String c r)).
    + apply allSpace_consHead; [assumption | now apply IH].
    + constructor; [reflexivity | now apply IH].
Qed.

Lemma replaceTabs_allSpace (s : string) :
  allSpace s = true -> allSpace (replaceTabs s) = true.
Proof.
  unfold allSpace. induction s as [|c r IH]; simpl; [reflexivity|].
  intros H. apply andb_prop in H as [Hc Hr]. rewrite (IH Hr).
  destruct (Ascii.eqb c TAB); [reflexivity | now rewrite Hc].
Qed.

Lemma blank_parts (c : string) :
  allSpace c = true -> split sepSpaces (trim c) = [""].
Proof.
  intros H. apply trim_blank in H.
  destruct (trim c); [reflexivity | discriminate].
Qed.

Lemma at_0_Forall {A : Type} (P : A -> Prop) (l : list A) (x : A) :
  Forall P l -> at_ l 0 = Some x -> P x.
Proof.
  intros Hl Hx. destruct l as [|y l]; [discriminate|].
  inversion Hl; subst. now inversion Hx; subst.
Qed.

Lemma aware_blank (line : string) :
  allSpace line = true -> TeamAware.parseLine line = Ret None.
Proof.
  intros H. unfold TeamAware.parseLine, TeamAware.partsOf.
  destruct (aware_cleanLine_defined line) as (c & Hc). rewrite Hc. simpl.
  rewrite blank_parts; [reflexivity|].
  unfold TeamAware.cleanLine in Hc.
  eapply (at_0_Forall (fun p => allSpace p = true)); [|exact Hc].
  apply allSpace_pieces, replaceTabs_allSpace, H.
Qed.

Lemma basic_blank (line : string) :
  allSpace line = true -> Basic.parseLine line = Ret None.
Proof.
  intros H. unfold Basic.parseLine, Basic.partsOf.
  destruct (basic_cleanLine_defined line) as (c & Hc). rewrite Hc. simpl.
  rewrite blank_parts; [reflexivity|].
  unfold Basic.cleanLine in Hc.
  eapply (at_0_Forall (fun p => allSpace p = true)); [|exact Hc].
  apply allSpace_pieces, H.
Qed.

Lemma flat_map_filter {A B : Type} (keep : A -> bool) (g : A -> list B)
    (l : list A) :
  (forall x, keep x = false -> g x = []) ->
  flat_map g (filter keep l) = flat_map g l.
Proof.
  intros H. induction l as [|x l IH]; simpl; [reflexivity|].
  destruct (keep x) eqn:K; simpl; rewrite IH; [reflexivity|].
  now rewrite (H x K).
Qed.

Lemma not_kept_blank (line : string) :
  negb (isEmpty (trim line)) = false -> allSpace line = true.
Proof.
  intros H. apply trim_blank. now destruct (isEmpty (trim line)).
Qed.

(** The whole call, as a function of the lines of the text: the records of
    the lines, in the order of the lines. *)
Lemma aware_parse_spec (text : string) :
  TeamAware.parseRankingsFromText text
  = Resolved (flat_map (emitted TeamAware.parseLine) (split sepNewline text)).
Proof.
  unfold TeamAware.parseRankingsFromText, linesOf.
  rewrite aware_forLines_spec. simpl. f_equal.
  apply flat_map_filter. intros line K. unfold emitted.
  now rewrite (aware_blank _ (not_kept_blank _ K)).
Qed.

Lemma basic_parse_spec (text : string) :
  Basic.parseRankingsFromText text
  = Resolved (flat_map (emitted Basic.parseLine) (split sepNewline text)).
Proof.
  unfold Basic.parseRankingsFromText, linesOf.
  rewrite basic_forLines_spec. simpl. f_equal.
  apply flat_map_filter. intros line K. unfold emitted.
  now rewrite (basic_blank _ (not_kept_blank _ K)).
Qed.

Lemma blank_text_lines (text : string) :
  allSpace text = true -> linesOf text = [].
Proof.
  intros H. unfold linesOf, split.
  pose proof (allSpace_pieces sepNewline text H 0%nat) as Hall.
  induction Hall as [|p ps Hp _ IH]; simpl; [reflexivity|].
  apply trim_blank in Hp. now rewrite Hp.
Qed.

(* ------------------------------------------------------------------ *)
(** ** Digits and [parseInt] *)

Lemma digit_not_space (c : ascii) : isDigit c = true -> isSpace c = false.
Proof. ascii_cases c; vm_compute; intros H; congruence. Qed.

Lemma digit_upper (c : ascii) : isDigit c = true -> upperChar c = String c "".
Proof. ascii_cases c; vm_compute; intros H; congruence. Qed.

Lemma digit_not_sign (c : ascii) :
  isDigit c = true -> c <> "-"%char /\ c <> "+"%char.
Proof. ascii_cases c; vm_compute; intros H; split; congruence. Qed.

Lemma digitValue_nonneg (c : ascii) : 0 <= digitValue c.
Proof. unfold digitValue. lia. Qed.

Lemma decimalFrom_nonneg (s : string) :
  forall acc, 0 <= acc -> 0 <= decimalFrom acc s.
Proof.
  induction s as [|c r IH]; cbn [decimalFrom]; intros acc H; [assumption|].
  apply IH. pose proof (digitValue_nonneg c). lia.
Qed.

Lemma takeDigits_all (s : string) : allDigits s = true -> takeDigits s = s.
Proof.
  unfold allDigits. induction s as [|c r IH]; simpl; [reflexivity|].
  intros H. apply andb_prop in H as [Hc Hr]. now rewrite Hc, IH.
Qed.

(** On a string of digits [parseInt] is the decimal value; on the empty
    string it is [NaN]. *)
Lemma parseInt_digits (ds : string) :
  allDigits ds = true ->
  parseInt ds = if isEmpty ds then None else Some (decimal ds).
Proof.
  destruct ds as [|c r]; [reflexivity|].
  intros H. pose proof H as H'. unfold allDigits in H'. simpl in H'.
  apply andb_prop in H' as [Hc Hr].
  unfold parseInt. simpl trimStart. rewrite (digit_not_space _ Hc).
  destruct (digit_not_sign _ Hc) as [Hm Hp].
  assert (E : (let '(sign, body) :=
                 match String c r with
                 | String "-" r0 => (-1, r0)
                 | String "+" r0 => (1, r0)
                 | _ => (1, String c r)
                 end in
               match takeDigits body with
               | "" => None
               | ds => Some (sign * decimal ds)
               end)
              = match takeDigits (String c r) with
                | "" => None
                | ds => Some (1 * decimal ds)
                end).
  { clear -Hm Hp. ascii_cases c; try reflexivity; congruence. }
  rewrite E, (takeDigits_all _ H). simpl isEmpty. cbv iota.
  now rewrite Z.mul_1_l.
Qed.

Lemma parseInt_digits_nonneg (ds : string) (k : Z) :
  allDigits ds = true -> parseInt ds = Some k -> 0 <= k.
Proof.
  intros H E. rewrite (parseInt_digits _ H) in E.
  destruct (isEmpty ds); [discriminate|].
  injection E as <-. now apply decimalFrom_nonneg.
Qed.

(* ------------------------------------------------------------------ *)
(** ** The position matcher *)

Lemma startsWith_split (p s : string) :
  startsWith s p = true -> s = p ++ substring s (String.length p).
Proof.
  unfold startsWith. revert s.
  induction p as [|a p IH]; intros s; [reflexivity|].
  destruct s as [|b s]; simpl; [discriminate|].
  destruct (ascii_dec a b) as [->|]; [|discriminate].
  intros H. now rewrite <- (IH s H).
Qed.

Lemma startsWith_app (p r : string) : startsWith (p ++ r) p = true.
Proof.
  unfold startsWith. induction p as [|a p IH]; simpl.
  - now destruct r.
  - destruct (ascii_dec a a); [assumption | contradiction].
Qed.

(** What a successful run of the loop over the base codes found. *)
Lemma matchBase_sound (u : string) (codes : list string) (r : Pos.t) :
  matchBase u codes = Some r ->
  exists pos ds,
    In pos codes /\ allDigits ds = true /\ u = pos ++ ds
    /\ r = {| Pos.base := canonical pos; Pos.rank := parseInt ds |}.
Proof.
  induction codes as [|pos rest IH]; simpl; [discriminate|].
  destruct (startsWith u pos) eqn:Hp.
  - destruct (allDigits (substring u (String.length pos))) eqn:Hd.
    + intros E. injection E as <-.
      exists pos, (substring u (String.length pos)).
      repeat split; auto. now apply startsWith_split.
    + intros E. destruct (IH E) as (q & ds & ? & ? & ? & ?).
      exists q, ds. auto.
  - intros E. destruct (IH E) as (q & ds & ? & ? & ? & ?).
    exists q, ds. auto.
Qed.

(** A base code followed by digits is matched under that very code: no
    earlier code of the list is a prefix of it. *)
Lemma matchBase_complete (pos ds : string) :
  In pos BASE_POSITIONS -> allDigits ds = true ->
  matchBase (pos ++ ds) BASE_POSITIONS
  = Some {| Pos.base := canonical pos; Pos.rank := parseInt ds |}.
Proof.
  intros Hin Hd. unfold BASE_POSITIONS in *. simpl in Hin.
  assert (P : forall s, String.prefix "" s = true) by (now destruct s).
  decompose [or] Hin; try contradiction; subst pos;
    cbn -[allDigits parseInt]; unfold startsWith; cbn -[allDigits parseInt];
    rewrite ?P; cbn -[allDigits parseInt]; rewrite Hd; reflexivity.
Qed.

Lemma toUpperCase_digits (s : string) :
  allDigits s = true -> toUpperCase s = s.
Proof.
  unfold allDigits. induction s as [|c r IH]; simpl; [reflexivity|].
  intros H. apply andb_prop in H as [Hc Hr].
  now rewrite (digit_upper _ Hc), (IH Hr).
Qed.

Lemma base_head_not_digit (pos ds : string) (c : ascii) (r : string) :
  In pos BASE_POSITIONS -> pos ++ ds = String c r -> isDigit c = false.
Proof.
  unfold BASE_POSITIONS. simpl. intros Hin E.
  decompose [or] Hin; try contradiction; subst pos;
    simpl in E; injection E as <- _; reflexivity.
Qed.

Lemma canonical_code (pos : string) :
  In pos BASE_POSITIONS -> In (canonical pos) POSITION_CODES.
Proof.
  unfold BASE_POSITIONS, POSITION_CODES. simpl. intros Hin.
  decompose [or] Hin; try contradiction; subst pos; vm_compute; tauto.
Qed.

(* ------------------------------------------------------------------ *)
(** ** Tokens of a trimmed line *)

Lemma trimEnd_idem (s : string) : trimEnd (trimEnd s) = trimEnd s.
Proof.
  induction s as [|c r IH]; simpl; [reflexivity|].
  destruct (trimEnd r) as [|d r'] eqn:E.
  - destruct (isSpace c) eqn:Hc; simpl; [reflexivity | now rewrite Hc].
  - simpl in *. now rewrite IH.
Qed.

Lemma trimStart_head (s : string) : sepSpaces (trimStart s) = 0%nat.
Proof.
  induction s as [|c r IH]; simpl; [reflexivity|].
  destruct (isSpace c) eqn:Hc; [assumption | simpl; now rewrite Hc].
Qed.

Lemma trimEnd_head (s : string) :
  sepSpaces s = 0%nat -> sepSpaces (trimEnd s) = 0%nat.
Proof.
  destruct s as [|c r]; simpl; [reflexivity|].
  destruct (isSpace c) eqn:Hc; [discriminate|]. intros _.
  destruct (trimEnd r); simpl; now rewrite Hc.
Qed.

Lemma trim_head (s : string) : sepSpaces (trim s) = 0%nat.
Proof. apply trimEnd_head, trimStart_head. Qed.

Lemma tl_consHead (c : ascii) (l : list string) : tl (consHead c l) = tl l.
Proof. now destruct l. Qed.

Lemma hd_consHead (c : ascii) (l : list string) :
  hd "" (consHead c l) = String c (hd "" l).
Proof. now destruct l. Qed.

Lemma consHead_tokens (c : ascii) (l : list string) :
  Forall (fun t => t <> "") (tl l) ->
  Forall (fun t => t <> "") (consHead c l).
Proof.
  destruct l as [|p ps]; simpl; intros H; constructor;
    try discriminate; assumption.
Qed.

(** In a string without trailing white space every token is non-empty,
    once the white space at its head has been passed. *)
Lemma tokens_nonempty (s : string) :
  trimEnd s = s ->
  (s <> "" ->
   Forall (fun t => t <> "") (splitGo sepSpaces (sepSpaces s) s))
  /\ Forall (fun t => t <> "") (tl (splitGo sepSpaces 0 s)).
Proof.
  induction s as [|c r IH]; intros Htrim.
  - split; [congruence | constructor].
  - assert (Hr : trimEnd r = r /\ (r = "" -> isSpace c = false)).
    { simpl in Htrim. destruct (trimEnd r) as [|d r'] eqn:E.
      - destruct (isSpace c); [discriminate|].
        injection Htrim as <-. auto.
      - injection Htrim as <-. split; [reflexivity | discriminate]. }
    destruct Hr as [Hr Hlast]. destruct (IH Hr) as [IH1 IH2].
    assert (Hne : isSpace c = true -> r <> "").
    { intros Hc E. rewrite (Hlast E) in Hc. discriminate. }
    split.
    + intros _. cbn [sepSpaces]. destruct (isSpace c) eqn:Hc.
      * cbn [splitGo]. apply IH1. now apply Hne.
      * cbn [splitGo sepSpaces]. rewrite Hc. now apply consHead_tokens.
    + cbn [splitGo sepSpaces]. destruct (isSpace c) eqn:Hc.
      * cbn [tl]. apply IH1. now apply Hne.
      * now rewrite tl_consHead.
Qed.

Lemma parts_nonempty (c : string) :
  (len (split sepSpaces (trim c)) <? 2) = false ->
  Forall (fun t => t <> "") (split sepSpaces (trim c)).
Proof.
  intros L. unfold split in *.
  destruct (trim c) as [|a r] eqn:E; [discriminate|].
  rewrite <- E in *.
  assert (Ht : trimEnd (trim c) = trim c) by apply trimEnd_idem.
  destruct (tokens_nonempty _ Ht) as [H _].
  rewrite trim_head in H. apply H. rewrite E. discriminate.
Qed.

Lemma join_nonempty (x : string) (l : list string) :
  x <> "" -> join (x :: l) <> "".
Proof.
  unfold join. destruct x as [|a x]; [congruence|].
  intros _. destruct l; simpl; discriminate.
Qed.

Lemma firstn_name (l : list string) (k : Z) :
  Forall (fun t => t <> "") l -> 0 < k -> k <= len l ->
  join (slice l 0 k) <> "".
Proof.
  intros Hall Hk Hle. rewrite slice_0 by lia.
  destruct l as [|x l]; [unfold len in Hle; simpl in Hle; lia|].
  destruct (Z.to_nat k) as [|n] eqn:E; [lia|].
  simpl firstn. apply join_nonempty. now inversion Hall.
Qed.

(* ------------------------------------------------------------------ *)
(** ** What a pushed record is made of *)

Lemma extract_sound (v : option string) (info : Pos.t) :
  extractPositionAndRank v = Some info ->
  exists tok pos ds,
    v = Some tok /\ tok <> "" /\ In pos BASE_POSITIONS
    /\ allDigits ds = true /\ toUpperCase tok = pos ++ ds
    /\ info = {| Pos.base := canonical pos; Pos.rank := parseInt ds |}.
Proof.
  unfold extractPositionAndRank.
  destruct v as [tok|]; [|discriminate].
  destruct tok as [|a tok]; [discriminate|].
  cbn [truthy isEmpty negb].
  intros E. apply matchBase_sound in E as (pos & ds & ? & ? & ? & ?).
  exists (String a tok), pos, ds. repeat split; auto. discriminate.
Qed.

Lemma extract_built (v : option string) (info : Pos.t) :
  extractPositionAndRank v = Some info ->
  In (Pos.base info) POSITION_CODES
  /\ forall k, Pos.rank info = Some k -> 0 <= k.
Proof.
  intros E. apply extract_sound in E
    as (tok & pos & ds & _ & _ & Hin & Hd & _ & ->).
  simpl. split; [now apply canonical_code|].
  intros k. now apply parseInt_digits_nonneg.
Qed.

Lemma aware_resolve_info (ps : list string) (info : Pos.t)
    (ti : option string) (n : Z) :
  TeamAware.resolve ps = Ret (Some info, ti, n) ->
  (exists v, extractPositionAndRank v = Some info) /\ n <= len ps.
Proof.
  unfold TeamAware.resolve.
  generalize (at_ ps (len ps - 1)) as p1.
  generalize (if len ps >? 1 then at_ ps (len ps - 2) else None) as p2.
  intros p2 p1.
  destruct (extractPositionAndRank p1) as [i1|] eqn:E1.
  - destruct (if truthy p2 then isTeam p2 else false).
    + destruct p2 as [t2|]; simpl; [|discriminate].
      intros H. injection H as <- _ <-. split; [eauto | lia].
    + intros H. injection H as <- _ <-. split; [eauto | lia].
  - destruct (isTeam p1); [|discriminate].
    destruct p1 as [t1|]; simpl; [|discriminate].
    destruct (truthy p2).
    + destruct (extractPositionAndRank p2) as [i2|] eqn:E2; [|discriminate].
      intros H. injection H as <- _ <-. split; [eauto | lia].
    + discriminate.
Qed.

Lemma aware_classify_inv (parts : list string) (p : Player) :
  TeamAware.classify parts = Ret (Some p) ->
  exists p0 rk info ti n,
    (len parts <? 2) = false
    /\ at_ parts 0 = Some p0
    /\ parseInt (stripRankSuffix p0) = Some rk
    /\ TeamAware.resolve (tl parts) = Ret (Some info, ti, n)
    /\ 0 < n
    /\ p = mkPlayer rk (join (slice (tl parts) 0 n)) info ti.
Proof.
  unfold TeamAware.classify.
  destruct (len parts <? 2) eqn:L; [discriminate|].
  destruct (at_0_defined _ L) as (p0 & E0). rewrite E0. simpl.
  destruct (parseInt (stripRankSuffix p0)) as [rk|] eqn:Er; [|discriminate].
  rewrite sliceFrom_1.
  destruct (len (tl parts) =? 0); [discriminate|].
  destruct (TeamAware.resolve (tl parts)) as [[[pi ti] n]|e] eqn:R;
    simpl; [|discriminate].
  destruct pi as [info|]; [|discriminate].
  destruct (Z.gtb_spec n 0) as [Hn|Hn]; [|discriminate].
  intros H. injection H as <-.
  exists p0, rk, info, ti, n. repeat split; auto.
Qed.

Lemma aware_partsOf_eq (line : string) :
  exists c, TeamAware.cleanLine line = Some c
            /\ TeamAware.partsOf line = Ret (split sepSpaces (trim c)).
Proof.
  destruct (aware_cleanLine_defined line) as (c & Hc).
  exists c. split; [assumption|].
  unfold TeamAware.partsOf. now rewrite Hc.
Qed.

Lemma Forall_tl {A : Type} (P : A -> Prop) (l : list A) :
  Forall P l -> Forall P (tl l).
Proof. intros H. destruct l; [constructor | now inversion H]. Qed.

Lemma aware_parseLine_built (line : string) (p : Player) :
  TeamAware.parseLine line = Ret (Some p) -> BuiltRecord p.
Proof.
  unfold TeamAware.parseLine.
  destruct (aware_partsOf_eq line) as (c & _ & ->). simpl.
  intros H. apply aware_classify_inv in H
    as (p0 & rk & info & ti & n & L & _ & _ & R & Hn & ->).
  apply aware_resolve_info in R as [[v Hv] Hle].
  apply extract_built in Hv as [Hb Hr].
  unfold BuiltRecord, mkPlayer. simpl. repeat split; auto.
  apply firstn_name; auto.
  apply Forall_tl, parts_nonempty, L.
Qed.

Lemma emitted_In (parseLine : string -> exn (option Player))
    (lines : list string) (p : Player) :
  In p (flat_map (emitted parseLine) lines) <->
  exists line, In line lines /\ parseLine line = Ret (Some p).
Proof.
  rewrite in_flat_map. unfold emitted. split.
  - intros (line & Hin & Hp). exists line. split; [assumption|].
    destruct (parseLine line) as [[q|]|]; simpl in Hp; try contradiction.
    destruct Hp as [->|[]]. reflexivity.
  - intros (line & Hin & E). exists line. split; [assumption|].
    rewrite E. now left.
Qed.

(* ------------------------------------------------------------------ *)
(** ** The matchup cut *)

Lemma occursAt_0 (sep s : string) :
  occursAt sep s 0 -> startsWith s sep = true.
Proof.
  intros (pre & post & -> & Hl).
  destruct pre; [|discriminate]. apply (startsWith_app sep post).
Qed.

Lemma occursAt_S (sep : string) (c : ascii) (r : string) (n : nat) :
  occursAt sep (String c r) (S n) -> occursAt sep r n.
Proof.
  intros (pre & post & E & Hl).
  destruct pre as [|a pre]; [discriminate|].
  simpl in E, Hl. injection E as _ ->. injection Hl as <-.
  now exists pre, post.
Qed.

Lemma sepMatchup_none (s sep : string) :
  sepMatchup s = 0%nat -> In sep MATCHUPS -> startsWith s sep = false.
Proof.
  unfold sepMatchup, MATCHUPS. simpl In.
  destruct (startsWith s " vs ") eqn:V; [discriminate|].
  destruct (startsWith s " @ ") eqn:A; [discriminate|].
  intros _ [<-|[<-|[]]]; assumption.
Qed.

Lemma sepMatchup_some (s : string) (k : nat) :
  sepMatchup s = S k ->
  exists sep post, In sep MATCHUPS /\ s = sep ++ post.
Proof.
  unfold sepMatchup, MATCHUPS.
  destruct (startsWith s " vs ") eqn:V.
  - intros _. exists " vs ", (substring s 4). split; [now left|].
    now apply startsWith_split in V.
  - destruct (startsWith s " @ ") eqn:A; [|discriminate].
    intros _. exists " @ ", (substring s 3). split; [right; now left|].
    now apply startsWith_split in A.
Qed.

Lemma matchup_nonempty (sep : string) : In sep MATCHUPS -> sep <> "".
Proof. intros [<-|[<-|[]]]; discriminate. Qed.

(** The first piece of [split(/ vs | @ /)] is the text before the leftmost
    separator, or the whole text when there is none. *)
Lemma first_piece_cut (s : string) :
  FirstMatchupCut s (hd "" (split sepMatchup s)).
Proof.
  unfold split. induction s as [|c r IH].
  - left. split; [reflexivity|].
    intros sep n Hin (pre & post & E & _).
    destruct pre; [|discriminate]. destruct sep; [|discriminate].
    now apply (matchup_nonempty "").
  - cbn [splitGo]. destruct (sepMatchup (String c r)) as [|k] eqn:M.
    + rewrite hd_consHead.
      assert (Hocc : forall sep n, In sep MATCHUPS ->
                occursAt sep (String c r) n ->
                exists n', n = S n' /\ occursAt sep r n').
      { intros sep [|n'] Hin Ho.
        - apply occursAt_0 in Ho.
          rewrite (sepMatchup_none _ _ M Hin) in Ho. discriminate.
        - exists n'. split; [reflexivity|]. now apply occursAt_S in Ho. }
      destruct IH as [[E Hno]|(sep & post & Hin & E & Hmin)].
      * left. rewrite E. split; [reflexivity|].
        intros sep n Hin Ho.
        destruct (Hocc _ _ Hin Ho) as (n' & -> & Ho').
        exact (Hno _ _ Hin Ho').
      * right. exists sep, post. split; [assumption|].
        split; [simpl; now rewrite <- E|].
        intros sep' n Hin' Ho.
        destruct (Hocc _ _ Hin' Ho) as (n' & -> & Ho').
        specialize (Hmin _ _ Hin' Ho'). simpl. lia.
    + right. cbn [hd].
      destruct (sepMatchup_some _ _ M) as (sep & post & Hin & E).
      exists sep, post. split; [assumption|]. split; [exact E|].
      intros; simpl; lia.
Qed.

Lemma append_same_length (a b x y : string) :
  a ++ x = b ++ y -> String.length a = String.length b -> a = b.
Proof.
  revert b. induction a as [|c a IH]; intros [|d b]; simpl;
    try discriminate; [reflexivity|].
  intros E Hl. injection E as -> E. injection Hl as Hl.
  now rewrite (IH b E Hl).
Qed.

(** The cut is determined by the text. *)
Lemma cut_unique (s c1 c2 : string) :
  FirstMatchupCut s c1 -> FirstMatchupCut s c2 -> c1 = c2.
Proof.
  intros [[E1 N1]|(s1 & q1 & I1 & E1 & M1)]
         [[E2 N2]|(s2 & q2 & I2 & E2 & M2)].
  - congruence.
  - exfalso. apply (N1 s2 (String.length c2) I2). now exists c2, q2.
  - exfalso. apply (N2 s1 (String.length c1) I1). now exists c1, q1.
  - assert (H12 : (String.length c1 <= String.length c2)%nat).
    { apply (M1 s2); [assumption|]. now exists c2, q2. }
    assert (H21 : (String.length c2 <= String.length c1)%nat).
    { apply (M2 s1); [assumption|]. now exists c1, q1. }
    apply (append_same_length c1 c2 (s1 ++ q1) (s2 ++ q2)); [congruence|lia].
Qed.

Lemma replaceTabs_noTab (s : string) : noTab s = true -> replaceTabs s = s.
Proof.
  unfold noTab. induction s as [|c r IH]; simpl; [reflexivity|].
  intros H. apply andb_prop in H as [Hc Hr]. rewrite (IH Hr).
  now destruct (Ascii.eqb c TAB).
Qed.

Lemma at_0_hd (l : list string) (c : string) :
  at_ l 0 = Some c -> hd "" l = c.
Proof. destruct l; [discriminate|]. intros H. now inversion H. Qed.

Lemma aware_cleanLine_cut (line c : string) :
  TeamAware.cleanLine line = Some c ->
  FirstMatchupCut (replaceTabs line) c.
Proof.
  unfold TeamAware.cleanLine. intros H. apply at_0_hd in H. subst c.
  apply first_piece_cut.
Qed.

Lemma basic_cleanLine_cut (line c : string) :
  Basic.cleanLine line = Some c -> FirstMatchupCut line c.
Proof.
  unfold Basic.cleanLine. intros H. apply at_0_hd in H. subst c.
  apply first_piece_cut.
Qed.

(* ------------------------------------------------------------------ *)
(** ** The leading token of a line *)

Lemma hd_split_spaces (t : string) :
  hd "" (split sepSpaces t) = takeToken t.
Proof.
  unfold split. induction t as [|c r IH]; [reflexivity|].
  cbn [splitGo sepSpaces takeToken].
  destruct (isSpace c); [reflexivity|].
  now rewrite hd_consHead, IH.
Qed.

Lemma takeToken_trimEnd (u : string) : takeToken (trimEnd u) = takeToken u.
Proof.
  induction u as [|c r IH]; [reflexivity|]. cbn [trimEnd takeToken].
  destruct (isSpace c) eqn:Hc.
  - destruct (trimEnd r); simpl; [reflexivity | now rewrite Hc].
  - rewrite <- IH. destruct (trimEnd r); simpl; now rewrite Hc.
Qed.

Lemma firstToken_eq (line : string) :
  firstToken line = takeToken (trimStart line).
Proof.
  unfold firstToken, trim. now rewrite hd_split_spaces, takeToken_trimEnd.
Qed.

Lemma length_consHead (c : ascii) (l : list string) :
  l <> [] -> List.length (consHead c l) = List.length l.
Proof. destruct l; [congruence | reflexivity]. Qed.

Lemma takeToken_app (t rest : string) :
  (2 <= List.length (split sepSpaces t))%nat ->
  takeToken (t ++ rest) = takeToken t.
Proof.
  unfold split. induction t as [|c r IH]; [simpl; lia|].
  cbn [splitGo sepSpaces takeToken append].
  destruct (isSpace c); [reflexivity|].
  rewrite length_consHead.
  - intros H. now rewrite IH.
  - destruct (splitGo_cons sepSpaces r 0%nat) as (p & ps & ->). discriminate.
Qed.

Lemma trimEnd_suffix (u : string) : exists w, u = trimEnd u ++ w.
Proof.
  induction u as [|c r [w IH]]; [now exists ""|]. cbn [trimEnd].
  destruct (trimEnd r) as [|d r'] eqn:E.
  - destruct (isSpace c).
    + now exists (String c r).
    + exists w. simpl in *. now rewrite <- IH.
  - exists w. simpl in *. now rewrite <- IH.
Qed.

Lemma trimStart_app (c rest : string) :
  allSpace c = false -> trimStart (c ++ rest) = trimStart c ++ rest.
Proof.
  unfold allSpace. induction c as [|a r IH]; simpl; [discriminate|].
  destruct (isSpace a); simpl; [exact IH | reflexivity].
Qed.

Lemma append_assoc (a b c : string) : (a ++ b) ++ c = a ++ b ++ c.
Proof. induction a as [|x a IH]; simpl; [reflexivity | now rewrite IH]. Qed.

(** When a prefix of a text has two tokens or more, its first token is the
    first token of the text. *)
Lemma first_token_prefix (c rest : string) :
  (len (split sepSpaces (trim c)) <? 2) = false ->
  firstToken (c ++ rest) = firstToken c.
Proof.
  intros L. rewrite !firstToken_eq.
  assert (Hc : allSpace c = false).
  { destruct (allSpace c) eqn:E; [|reflexivity].
    rewrite (blank_parts _ E) in L. discriminate. }
  rewrite (trimStart_app _ _ Hc).
  destruct (trimEnd_suffix (trimStart c)) as (w & Hw).
  rewrite <- (takeToken_trimEnd (trimStart c)).
  rewrite Hw at 1. rewrite append_assoc. apply takeToken_app.
  unfold len, trim in L. apply Z.ltb_ge in L. lia.
Qed.

Lemma cut_prefix (s c : string) :
  FirstMatchupCut s c -> exists rest, s = c ++ rest.
Proof.
  intros [[-> _]|(sep & post & _ & E & _)].
  - exists "". induction s as [|a s IH]; simpl; [reflexivity|].
    now rewrite <- IH.
  - now exists (sep ++ post).
Qed.

Lemma isSpace_TAB_SPACE (c : ascii) :
  isSpace (if Ascii.eqb c TAB then SPACE else c) = isSpace c.
Proof.
  destruct (Ascii.eqb_spec c TAB) as [->|]; reflexivity.
Qed.

Lemma space_or_same (c : ascii) :
  isSpace c = false -> (if Ascii.eqb c TAB then SPACE else c) = c.
Proof.
  destruct (Ascii.eqb_spec c TAB) as [->|]; [discriminate | reflexivity].
Qed.

Lemma takeToken_replaceTabs (s : string) :
  takeToken (replaceTabs s) = takeToken s.
Proof.
  induction s as [|c r IH]; [reflexivity|]. cbn [replaceTabs takeToken].
  rewrite isSpace_TAB_SPACE. destruct (isSpace c) eqn:Hc; [reflexivity|].
  now rewrite (space_or_same _ Hc), IH.
Qed.

Lemma firstToken_replaceTabs (s : string) :
  firstToken (replaceTabs s) = firstToken s.
Proof.
  rewrite !firstToken_eq.
  induction s as [|c r IH]; [reflexivity|]. cbn [replaceTabs trimStart].
  rewrite isSpace_TAB_SPACE. destruct (isSpace c) eqn:Hc; [exact IH|].
  rewrite (space_or_same _ Hc). cbn [takeToken]. rewrite Hc.
  now rewrite takeToken_replaceTabs.
Qed.

(** The rank token the parser reads is the leading token of the line. *)
Lemma aware_rank_token (line : string) (parts : list string) (p0 : string) :
  TeamAware.partsOf line = Ret parts ->
  (len parts <? 2) = false ->
  at_ parts 0 = Some p0 ->
  p0 = firstToken line.
Proof.
  destruct (aware_partsOf_eq line) as (c & Hc & ->).
  intros E L H0. injection E as <-.
  apply at_0_hd in H0. fold (firstToken c) in H0. subst p0.
  destruct (cut_prefix _ _ (aware_cleanLine_cut _ _ Hc)) as (rest & Hr).
  now rewrite <- (firstToken_replaceTabs line), Hr, first_token_prefix.
Qed.

(* ------------------------------------------------------------------ *)
(** ** Properties of the parser *)

(** C8. For every input string the team-aware [parseRankingsFromText]
    resolves with a sequence of records: no statement of the loop body
    throws, so the [catch] branch that rejects the promise is never taken.
    A text made of white space only (the empty text included) resolves
    with the empty sequence. *)
Theorem parse_always_resolves :
  (forall line, exists r, TeamAware.parseLine line = Ret r)
  /\ (forall text,
        exists players, TeamAware.parseRankingsFromText text = Resolved players)
  /\ (forall text,
        allSpace text = true ->
        TeamAware.parseRankingsFromText text = Resolved []).
Proof.
  split; [exact aware_parseLine_total|]. split.
  - intros text. rewrite aware_parse_spec. eauto.
  - intros text H. unfold TeamAware.parseRankingsFromText.
    now rewrite (blank_text_lines _ H).
Qed.

Lemma parse_always_resolves_witness :
  TeamAware.parseRankingsFromText (nl "  " (String TAB " ")) = Resolved [].
Proof.
  apply (proj2 (proj2 parse_always_resolves)). reflexivity.
Defined.

(** C7. The output of the team-aware [parseRankingsFromText] follows the
    lines of the text: when line [i] emits record [A] and a later line [j]
    emits record [B], the output is the records of the lines before [i],
    then [A], then the records of the lines in between, then [B], then the
    records of the lines after [j].  The output is not sorted by rank: a
    rank 2 line followed by a rank 1 line comes out in that order. *)
Theorem output_follows_line_order :
  (forall text i j lineA lineB A B,
      (i < j)%nat ->
      nth_error (split sepNewline text) i = Some lineA ->
      nth_error (split sepNewline text) j = Some lineB ->
      TeamAware.parseLine lineA = Ret (Some A) ->
      TeamAware.parseLine lineB = Ret (Some B) ->
      exists before between after,
        split sepNewline text
        = (before ++ lineA :: between ++ lineB :: after)%list
        /\ List.length before = i
        /\ TeamAware.parseRankingsFromText text
           = Resolved
               (flat_map (emitted TeamAware.parseLine) before
                ++ A :: flat_map (emitted TeamAware.parseLine) between
                ++ B :: flat_map (emitted TeamAware.parseLine) after)%list)
  /\ TeamAware.parseRankingsFromText
       (nl "2 Josh Allen QB1" "1 Bijan Robinson RB1")
     = Resolved
         [ {| rank := 2; name := "Josh Allen"; position := "QB";
              positionalRank := Some 1; team := None |};
           {| rank := 1; name := "Bijan Robinson"; position := "RB";
              positionalRank := Some 1; team := None |} ].
Proof.
  split; [|reflexivity].
  intros text i j lineA lineB A B Hij HA HB EA EB.
  rewrite aware_parse_spec.
  destruct (nth_error_split _ _ HA) as (before & rest & E & Hlen).
  rewrite E in HB |- *.
  rewrite nth_error_app2 in HB by lia.
  rewrite Hlen in HB.
  replace (j - i)%nat with (S (j - S i)) in HB by lia. simpl in HB.
  destruct (nth_error_split _ _ HB) as (between & after & E' & _).
  subst rest. exists before, between, after.
  split; [reflexivity|]. split; [assumption|]. f_equal.
  rewrite flat_map_app. cbn [flat_map]. rewrite flat_map_app. cbn [flat_map].
  unfold emitted at 2 4. now rewrite EA, EB.
Qed.

Lemma output_follows_line_order_witness :
  exists before between after,
    split sepNewline (nl "2 Josh Allen QB1" "1 Bijan Robinson RB1")
    = (before ++ "2 Josh Allen QB1" :: between
              ++ "1 Bijan Robinson RB1" :: after)%list
    /\ List.length before = 0%nat
    /\ TeamAware.parseRankingsFromText
         (nl "2 Josh Allen QB1" "1 Bijan Robinson RB1")
       = Resolved
           (flat_map (emitted TeamAware.parseLine) before
            ++ {| rank := 2; name := "Josh Allen"; position := "QB";
                  positionalRank := Some 1; team := None |}
            :: flat_map (emitted TeamAware.parseLine) between
            ++ {| rank := 1; name := "Bijan Robinson"; position := "RB";
                  positionalRank := Some 1; team := None |}
            :: flat_map (emitted TeamAware.parseLine) after)%list.
Proof.
  apply (proj1 output_follows_line_order
           (nl "2 Josh Allen QB1" "1 Bijan Robinson RB1") 0%nat 1%nat);
    [lia | reflexivity | reflexivity | reflexivity | reflexivity].
Defined.

(** C1. In the team-aware parser the line "5 Patrick Mahomes KC QB1" and
    the line "5 Patrick Mahomes QB1 KC" yield the same record, rank 5, name
    "Patrick Mahomes", team "KC", position "QB", positional rank 1; and in
    every input text that has one of them among its lines that record is
    in the output. *)
Theorem team_layouts_agree (text line : string) :
  In line (split sepNewline text) ->
  line = "5 Patrick Mahomes KC QB1" \/ line = "5 Patrick Mahomes QB1 KC" ->
  TeamAware.parseLine line = Ret (Some mahomes)
  /\ exists out,
       TeamAware.parseRankingsFromText text = Resolved out /\ In mahomes out.
Proof.
  intros Hin Hl.
  assert (E : TeamAware.parseLine line = Ret (Some mahomes)).
  { destruct Hl as [->| ->]; reflexivity. }
  split; [exact E|].
  rewrite aware_parse_spec. eexists. split; [reflexivity|].
  apply emitted_In. eauto.
Qed.

Lemma team_layouts_agree_witness :
  TeamAware.parseLine "5 Patrick Mahomes QB1 KC" = Ret (Some mahomes)
  /\ exists out,
       TeamAware.parseRankingsFromText
         (nl "1 Josh Allen BUF QB2" "5 Patrick Mahomes QB1 KC")
       = Resolved out
       /\ In mahomes out.
Proof.
  apply team_layouts_agree; [right; left; reflexivity | right; reflexivity].
Defined.

(** C2. [extractPositionAndRank] returns a match exactly when the
    upper-cased token is a base code of [QB, RB, WR, TE, K, DST, DEF]
    followed by digits only (possibly none).  On a match the base returned
    is that code, with DEF turned into DST, hence one of the six position
    codes; the rank returned is what [parseInt] reads in the digits: absent
    exactly when there are no digits, and the decimal value of the digits
    when that value is at most 2^53.  A token made of digits only is never
    matched. *)
Theorem extractPositionAndRank_spec (tok : string) :
  ((exists r, extractPositionAndRank (Some tok) = Some r)
   <-> exists pos ds,
         In pos BASE_POSITIONS /\ allDigits ds = true
         /\ toUpperCase tok = pos ++ ds)
  /\ (forall pos ds,
        In pos BASE_POSITIONS -> allDigits ds = true ->
        toUpperCase tok = pos ++ ds ->
        extractPositionAndRank (Some tok)
        = Some {| Pos.base := canonical pos; Pos.rank := parseInt ds |}
        /\ In (canonical pos) POSITION_CODES
        /\ (parseInt ds = None <-> ds = "")
        /\ (ds <> "" -> decimal ds <= MAX_EXACT_INTEGER ->
            parseInt ds = Some (decimal ds)))
  /\ (allDigits tok = true -> extractPositionAndRank (Some tok) = None).
Proof.
  assert (Hc : forall pos ds,
             In pos BASE_POSITIONS -> allDigits ds = true ->
             toUpperCase tok = pos ++ ds ->
             extractPositionAndRank (Some tok)
             = Some {| Pos.base := canonical pos; Pos.rank := parseInt ds |}).
  { intros pos ds Hin Hd E. unfold extractPositionAndRank.
    destruct tok as [|a tok].
    - exfalso. simpl in E. destruct pos; [|discriminate].
      revert Hin. unfold BASE_POSITIONS. simpl.
      intros H. decompose [or] H; try discriminate; contradiction.
    - cbn [truthy isEmpty negb]. rewrite E.
      now rewrite (matchBase_complete _ _ Hin Hd). }
  split; [split|split].
  - intros (r & E). apply extract_sound in E
      as (t & pos & ds & Ht & _ & Hin & Hd & Hu & _).
    injection Ht as <-. eauto.
  - intros (pos & ds & Hin & Hd & E). rewrite (Hc _ _ Hin Hd E). eauto.
  - intros pos ds Hin Hd E.
    split; [now apply Hc|]. split; [now apply canonical_code|].
    rewrite (parseInt_digits _ Hd). split.
    + destruct ds; simpl; split; congruence.
    + intros Hne _. destruct ds; [congruence | reflexivity].
  - intros Hd.
    destruct (extractPositionAndRank (Some tok)) as [r|] eqn:E; [|reflexivity].
    exfalso. apply extract_sound in E
      as (t & pos & ds & Ht & Hne & Hin & _ & Hu & _).
    injection Ht as <-. rewrite (toUpperCase_digits _ Hd) in Hu.
    destruct tok as [|c r']; [congruence|].
    pose proof (base_head_not_digit _ _ _ _ Hin (eq_sym Hu)) as Hnd.
    unfold allDigits in Hd. simpl in Hd. rewrite Hnd in Hd. discriminate.
Qed.

Lemma extractPositionAndRank_spec_witness :
  extractPositionAndRank (Some "def12")
  = Some {| Pos.base := "DST"; Pos.rank := Some 12 |}
  /\ In "DST" POSITION_CODES
  /\ parseInt "12" = Some 12.
Proof.
  destruct (proj1 (proj2 (extractPositionAndRank_spec "def12")) "DEF" "12")
    as (E & Hin & _ & V);
    [ right; right; right; right; right; right; left; reflexivity
    | reflexivity | reflexivity | ].
  split; [exact E|]. split; [exact Hin|].
  apply V; [discriminate | vm_compute; discriminate].
Defined.

(* ------------------------------------------------------------------ *)
(** ** Lines the team-aware lookup passes over *)

Lemma aware_resolve_team_only (ps : list string) (p1 : string) :
  at_ ps (len ps - 1) = Some p1 ->
  isTeam (Some p1) = true ->
  extractPositionAndRank (Some p1) = None ->
  extractPositionAndRank (if len ps >? 1 then at_ ps (len ps - 2) else None)
  = None ->
  TeamAware.resolve ps = Ret (None, Some (toUpperCase p1), len ps).
Proof.
  intros H1 Ht Hp H2. unfold TeamAware.resolve.
  rewrite H1, Hp, Ht, H2. simpl.
  now destruct (truthy (if len ps >? 1 then at_ ps (len ps - 2) else None)).
Qed.

Lemma aware_classify_team_only (parts : list string) (p1 : string) :
  at_ parts (len parts - 1) = Some p1 ->
  isTeam (Some p1) = true ->
  extractPositionAndRank (Some p1) = None ->
  extractPositionAndRank (at_ parts (len parts - 2)) = None ->
  TeamAware.classify parts = Ret None.
Proof.
  intros H1 Ht Hp H2. unfold TeamAware.classify.
  destruct (len parts <? 2) eqn:L'; [reflexivity|].
  destruct (at_0_defined _ L') as (p0 & ->). simpl.
  apply Z.ltb_ge in L' as L.
  destruct (parseInt (stripRankSuffix p0)); [|reflexivity].
  rewrite sliceFrom_1.
  destruct (len (tl parts) =? 0); [reflexivity|].
  assert (Hl : len (tl parts) = len parts - 1) by (apply len_tl; lia).
  rewrite (aware_resolve_team_only _ p1); auto.
  - rewrite at_tl, Hl by lia.
    now replace (len parts - 1 - 1 + 1) with (len parts - 1) by lia.
  - rewrite Hl. destruct (Z.gtb_spec (len parts - 1) 1); [|reflexivity].
    rewrite at_tl by lia.
    now replace (len parts - 1 - 2 + 1) with (len parts - 2) by lia.
Qed.

Lemma upperAZ_upper (x : ascii) :
  isUpperAZ x = true -> upperChar x = String x "".
Proof. ascii_cases x; vm_compute; intros H; congruence. Qed.

(** Upper-casing a team token leaves it as it is. *)
Lemma team_upper (t : string) :
  isTeam (Some t) = true -> toUpperCase t = t.
Proof.
  unfold isTeam. destruct (truthy (Some t)); [|discriminate].
  cbn [negb]. cbv iota. unfold isTeamShape.
  destruct t as [|a [|b [|c [|d t]]]]; try discriminate; intros Ht.
  - apply andb_prop in Ht as [Ha Hb].
    cbn [toUpperCase]. now rewrite (upperAZ_upper a Ha), (upperAZ_upper b Hb).
  - apply andb_prop in Ht as [Hab Hc]. apply andb_prop in Hab as [Ha Hb].
    cbn [toUpperCase].
    now rewrite (upperAZ_upper a Ha), (upperAZ_upper b Hb),
      (upperAZ_upper c Hc).
Qed.

(** C3. In the team-aware parser a line whose last token is a team token
    and not a position, and whose second-to-last token (if there is one)
    is not a position either, is passed over: no record is pushed for it.
    "7 Some Guy KC" is such a line. *)
Theorem trailing_team_without_position :
  (forall line parts p1,
      TeamAware.partsOf line = Ret parts ->
      at_ parts (len parts - 1) = Some p1 ->
      isTeam (Some p1) = true ->
      extractPositionAndRank (Some p1) = None ->
      extractPositionAndRank (at_ parts (len parts - 2)) = None ->
      TeamAware.parseLine line = Ret None
      /\ emitted TeamAware.parseLine line = [])
  /\ TeamAware.parseRankingsFromText "7 Some Guy KC" = Resolved [].
Proof.
  split; [|reflexivity].
  intros line parts p1 E H1 Ht Hp H2.
  assert (R : TeamAware.parseLine line = Ret None).
  { unfold TeamAware.parseLine. rewrite E. simpl.
    now apply (aware_classify_team_only parts p1). }
  split; [exact R|]. unfold emitted. now rewrite R.
Qed.

Lemma trailing_team_without_position_witness :
  TeamAware.parseLine "7 Some Guy KC" = Ret None
  /\ emitted TeamAware.parseLine "7 Some Guy KC" = [].
Proof.
  apply (proj1 trailing_team_without_position "7 Some Guy KC"
           ["7"; "Some"; "Guy"; "KC"] "KC"); reflexivity.
Defined.

(** C10. In the team-aware parser a line whose tokens are the rank token,
    then a token of two or three upper-case letters, then a token that
    matches a position, is passed over: the upper-case token is taken as
    the team, the name would be empty, and the guard on the name end index
    drops the line.  "4 CJ WR2" is such a line. *)
Theorem team_consumes_short_name :
  (forall line r t p,
      TeamAware.partsOf line = Ret [r; t; p] ->
      isTeam (Some t) = true ->
      extractPositionAndRank (Some p) <> None ->
      TeamAware.parseLine line = Ret None
      /\ exists info,
          TeamAware.resolve [t; p] = Ret (Some info, Some t, 0))
  /\ TeamAware.parseRankingsFromText "4 CJ WR2" = Resolved [].
Proof.
  split; [|reflexivity].
  intros line r t p E Ht Hp.
  destruct (extractPositionAndRank (Some p)) as [info|] eqn:Ep;
    [clear Hp | congruence].
  assert (Htr : truthy (Some t) = true).
  { unfold isTeam in Ht. now destruct (truthy (Some t)). }
  pose proof (team_upper _ Ht) as Hup.
  assert (R : TeamAware.resolve [t; p] = Ret (Some info, Some t, 0)).
  { unfold TeamAware.resolve.
    change (len [t; p]) with 2. change (2 >? 1) with true.
    change (at_ [t; p] (2 - 1)) with (Some p).
    change (at_ [t; p] (2 - 2)) with (Some t).
    cbv iota. rewrite Ep, Htr, Ht. cbn [receiver bind].
    now rewrite Hup. }
  split; [|eauto].
  unfold TeamAware.parseLine. rewrite E. cbn [bind].
  unfold TeamAware.classify.
  change (len [r; t; p] <? 2) with false. cbv iota.
  change (at_ [r; t; p] 0) with (Some r). cbn [receiver bind].
  destruct (parseInt (stripRankSuffix r)); [|reflexivity].
  rewrite sliceFrom_1. cbn [tl].
  change (len [t; p] =? 0) with false. cbv iota.
  rewrite R. reflexivity.
Qed.

Lemma team_consumes_short_name_witness :
  TeamAware.parseLine "4 CJ WR2" = Ret None
  /\ exists info, TeamAware.resolve ["CJ"; "WR2"] = Ret (Some info, Some "CJ", 0).
Proof.
  apply (proj1 team_consumes_short_name "4 CJ WR2" "4" "CJ" "WR2");
    [reflexivity | reflexivity | discriminate].
Defined.

(* ------------------------------------------------------------------ *)
(** ** Tokens that [parseInt] reads *)

Lemma takeDigits_empty (b : string) :
  takeDigits b = ""
  <-> match b with
      | String c _ => isDigit c
      | "" => false
      end = false.
Proof.
  destruct b as [|c r]; cbn [takeDigits]; [tauto|].
  destruct (isDigit c); split; congruence.
Qed.

Lemma parseInt_NaN (s : string) :
  parseInt s = None <-> beginsWithInteger (trimStart s) = false.
Proof.
  unfold parseInt, beginsWithInteger. rewrite <- takeDigits_empty.
  destruct (trimStart s) as [|c r]; [cbn; tauto|].
  ascii_cases c; cbn [signedBody];
    match goal with
    | |- context [takeDigits ?b] => destruct (takeDigits b)
    end; split; congruence.
Qed.

Lemma takeToken_head (u : string) : sepSpaces (takeToken u) = 0%nat.
Proof.
  destruct u as [|c r]; [reflexivity|]. cbn [takeToken].
  destruct (isSpace c) eqn:Hc; [reflexivity|]. cbn [sepSpaces].
  now rewrite Hc.
Qed.

Lemma strip_shape (c : ascii) (r : string) :
  stripRankSuffix (String c r) = ""
  \/ exists r', stripRankSuffix (String c r) = String c r'.
Proof.
  destruct r as [|e r].
  - cbn [stripRankSuffix].
    destruct (Ascii.eqb c "." || Ascii.eqb c ")")%bool; eauto.
  - right. eexists. reflexivity.
Qed.

Lemma strip_head (s : string) :
  sepSpaces s = 0%nat -> sepSpaces (stripRankSuffix s) = 0%nat.
Proof.
  destruct s as [|c r]; [reflexivity|]. cbn [sepSpaces].
  destruct (isSpace c) eqn:Hc; [discriminate|]. intros _.
  destruct (strip_shape c r) as [->|(r' & ->)]; [reflexivity|].
  cbn [sepSpaces]. now rewrite Hc.
Qed.

Lemma trimStart_at_token (s : string) :
  sepSpaces s = 0%nat -> trimStart s = s.
Proof.
  destruct s as [|c r]; cbn [sepSpaces trimStart]; [reflexivity|].
  now destruct (isSpace c).
Qed.

(** The rank token has no white space in front, so [parseInt] reads it
    from its first character. *)
Lemma rank_token_NaN (line : string) :
  parseInt (stripRankSuffix (firstToken line)) = None
  <-> beginsWithInteger (stripRankSuffix (firstToken line)) = false.
Proof.
  rewrite parseInt_NaN, trimStart_at_token; [reflexivity|].
  apply strip_head. rewrite firstToken_eq. apply takeToken_head.
Qed.

Lemma digit_begins_integer (d : ascii) (r : string) :
  isDigit d = true -> beginsWithInteger (stripRankSuffix (String d r)) = true.
Proof.
  intros Hd. destruct (strip_shape d r) as [E|(r' & ->)].
  - exfalso. destruct r as [|e r]; [|discriminate].
    cbn [stripRankSuffix] in E. revert Hd E.
    ascii_cases d; vm_compute; congruence.
  - unfold beginsWithInteger. destruct (digit_not_sign _ Hd) as [Hm Hp].
    assert (B : signedBody (String d r') = String d r').
    { clear -Hm Hp. ascii_cases d; try reflexivity; congruence. }
    now rewrite B.
Qed.

Lemma aware_line_rank (line : string) (p : Player) :
  TeamAware.parseLine line = Ret (Some p) ->
  parseInt (stripRankSuffix (firstToken line)) = Some (rank p).
Proof.
  unfold TeamAware.parseLine.
  destruct (aware_partsOf_eq line) as (c & _ & E). rewrite E. cbn [bind].
  intros C. apply aware_classify_inv in C
    as (p0 & rk & info & ti & n & L & E0 & Er & _ & _ & ->).
  now rewrite <- (aware_rank_token _ _ _ E L E0).
Qed.

(** C5, as worded, fails: the first tokens "12th" and "1.5" are not
    integers, yet [parseInt] reads the digits they begin with and the
    lines are pushed, with rank 12 and rank 1. *)
Lemma leading_digits_are_read :
  isIntegerText (stripRankSuffix (firstToken "12th Joe QB")) = false
  /\ TeamAware.parseRankingsFromText "12th Joe QB"
     = Resolved [ {| rank := 12; name := "Joe"; position := "QB";
                     positionalRank := None; team := None |} ]
  /\ isIntegerText (stripRankSuffix (firstToken "1.5 Joe Flacco QB2")) = false
  /\ TeamAware.parseRankingsFromText "1.5 Joe Flacco QB2"
     = Resolved [ {| rank := 1; name := "Joe Flacco"; position := "QB";
                     positionalRank := Some 2; team := None |} ].
Proof. repeat split. Qed.

(** C5, amended.  In the team-aware parser, when the first token of a
    line, with one trailing "." or ")" removed, does not begin with an
    integer (an optional sign, then a digit), which is exactly when
    [parseInt] gives [NaN] on it, the line is passed over and pushes no
    record; the output of the whole text is then the records of the lines
    before it followed by the records of the lines after it, so parsing
    goes on with the remaining lines.  A first token that begins with a
    digit begins with an integer whatever follows the digits, so that
    line is not passed over on account of its rank. *)
Theorem non_numeric_rank_skipped :
  (forall line,
      beginsWithInteger (stripRankSuffix (firstToken line)) = false ->
      TeamAware.parseLine line = Ret None
      /\ emitted TeamAware.parseLine line = [])
  /\ (forall text before line after,
        split sepNewline text = (before ++ line :: after)%list ->
        beginsWithInteger (stripRankSuffix (firstToken line)) = false ->
        TeamAware.parseRankingsFromText text
        = Resolved (flat_map (emitted TeamAware.parseLine) before
                    ++ flat_map (emitted TeamAware.parseLine) after)%list)
  /\ (forall line,
        beginsWithInteger (stripRankSuffix (firstToken line)) = false
        <-> parseInt (stripRankSuffix (firstToken line)) = None)
  /\ (forall d r,
        isDigit d = true ->
        beginsWithInteger (stripRankSuffix (String d r)) = true).
Proof.
  assert (Skip : forall line,
             beginsWithInteger (stripRankSuffix (firstToken line)) = false ->
             TeamAware.parseLine line = Ret None).
  { intros line Hb. apply rank_token_NaN in Hb as Hnan.
    unfold TeamAware.parseLine.
    destruct (aware_partsOf_eq line) as (c & Hc & E). rewrite E. cbn [bind].
    unfold TeamAware.classify.
    destruct (len (split sepSpaces (trim c)) <? 2) eqn:L; [reflexivity|].
    destruct (at_0_defined _ L) as (p0 & E0). rewrite E0. cbn [receiver bind].
    rewrite (aware_rank_token _ _ _ E L E0), Hnan. reflexivity. }
  split; [|split; [|split]].
  - intros line Hb. split; [now apply Skip|].
    unfold emitted. now rewrite (Skip _ Hb).
  - intros text before line after E Hb.
    rewrite aware_parse_spec, E, flat_map_app. cbn [flat_map].
    unfold emitted at 2. now rewrite (Skip _ Hb).
  - intros line. symmetry. apply rank_token_NaN.
  - exact digit_begins_integer.
Qed.

Lemma non_numeric_rank_skipped_witness :
  TeamAware.parseRankingsFromText
    (nl "1. Josh Allen QB1" (nl "Tier 2 QB" "3) Joe Burrow CIN QB3"))
  = Resolved
      (flat_map (emitted TeamAware.parseLine) ["1. Josh Allen QB1"]
       ++ flat_map (emitted TeamAware.parseLine) ["3) Joe Burrow CIN QB3"])%list.
Proof.
  apply (proj1 (proj2 non_numeric_rank_skipped)
           (nl "1. Josh Allen QB1" (nl "Tier 2 QB" "3) Joe Burrow CIN QB3"))
           ["1. Josh Allen QB1"] "Tier 2 QB" ["3) Joe Burrow CIN QB3"]);
    reflexivity.
Defined.

(** C6, as the data model words it, fails: the line "0 Joe QB0" is pushed
    with rank 0 and positional rank 0, and "-3) Joe Flacco QB" with
    rank -3; neither record has a positive rank. *)
Lemma rank_zero_is_emitted :
  TeamAware.parseRankingsFromText (nl "0 Joe QB0" "-3) Joe Flacco QB")
  = Resolved
      [ {| rank := 0; name := "Joe"; position := "QB";
           positionalRank := Some 0; team := None |};
        {| rank := -3; name := "Joe Flacco"; position := "QB";
           positionalRank := None; team := None |} ]
  /\ ~ DescribedRecord
         {| rank := 0; name := "Joe"; position := "QB";
            positionalRank := Some 0; team := None |}
  /\ ~ DescribedRecord
         {| rank := -3; name := "Joe Flacco"; position := "QB";
            positionalRank := None; team := None |}.
Proof.
  split; [reflexivity|].
  split; intros [H _]; simpl in H; lia.
Qed.

(** C6, amended.  Every record in the output of the team-aware
    [parseRankingsFromText] has as its rank what [parseInt] reads in the
    first token of its line, which is never [NaN] and may be zero or
    negative; it has a non-empty name, a position among QB, RB, WR, TE, K,
    DST and, when it has a positional rank, a positional rank that is zero
    or more. *)
Theorem emitted_records_built (text : string) (out : list Player)
    (p : Player) :
  TeamAware.parseRankingsFromText text = Resolved out ->
  In p out ->
  BuiltRecord p
  /\ exists line,
       In line (split sepNewline text)
       /\ TeamAware.parseLine line = Ret (Some p)
       /\ parseInt (stripRankSuffix (firstToken line)) = Some (rank p).
Proof.
  rewrite aware_parse_spec. intros E Hin. injection E as <-.
  apply emitted_In in Hin as (line & Hl & Hp).
  split; [now apply (aware_parseLine_built line)|].
  exists line. split; [assumption|]. split; [assumption|].
  now apply aware_line_rank.
Qed.

Lemma emitted_records_built_witness :
  BuiltRecord {| rank := 0; name := "Joe"; position := "QB";
                 positionalRank := Some 0; team := None |}
  /\ exists line,
       In line (split sepNewline "0 Joe QB0")
       /\ TeamAware.parseLine line
          = Ret (Some {| rank := 0; name := "Joe"; position := "QB";
                         positionalRank := Some 0; team := None |})
       /\ parseInt (stripRankSuffix (firstToken line))
          = Some (rank {| rank := 0; name := "Joe"; position := "QB";
                          positionalRank := Some 0; team := None |}).
Proof.
  apply (emitted_records_built "0 Joe QB0"
           [ {| rank := 0; name := "Joe"; position := "QB";
                positionalRank := Some 0; team := None |} ]);
    [reflexivity | left; reflexivity].
Defined.

(** C9. The two versions of [parseRankingsFromText] are not
    interchangeable.  On "8 Travis Kelce TE1 out KC" the basic scan emits a
    record and the team-aware lookup emits none; on
    "5 Patrick Mahomes KC QB1" both emit a record but the names differ.
    In both cases the outputs differ even with the team field forgotten. *)
Theorem strategies_differ :
  (exists text a b,
      Basic.parseRankingsFromText text = Resolved a
      /\ TeamAware.parseRankingsFromText text = Resolved b
      /\ List.length a <> List.length b)
  /\ (exists text a b,
        Basic.parseRankingsFromText text = Resolved [a]
        /\ TeamAware.parseRankingsFromText text = Resolved [b]
        /\ withoutTeam a <> withoutTeam b)
  /\ Basic.parseRankingsFromText "8 Travis Kelce TE1 out KC"
     = Resolved [ {| rank := 8; name := "Travis Kelce"; position := "TE";
                     positionalRank := Some 1; team := None |} ]
  /\ TeamAware.parseRankingsFromText "8 Travis Kelce TE1 out KC"
     = Resolved []
  /\ Basic.parseRankingsFromText "5 Patrick Mahomes KC QB1"
     = Resolved [ {| rank := 5; name := "Patrick Mahomes KC";
                     position := "QB"; positionalRank := Some 1;
                     team := None |} ]
  /\ TeamAware.parseRankingsFromText "5 Patrick Mahomes KC QB1"
     = Resolved [mahomes].
Proof.
  split; [|split]; [| |repeat split].
  - exists "8 Travis Kelce TE1 out KC". eexists. eexists.
    split; [reflexivity|]. split; [reflexivity|]. discriminate.
  - exists "5 Patrick Mahomes KC QB1". eexists. eexists.
    split; [reflexivity|]. split; [reflexivity|]. discriminate.
Qed.

(** C4, as worded, fails for the team-aware parser: the tabs of a line are
    turned into spaces before the matchup is looked for.  The tab-separated
    line [jeffersonTabbed] holds neither " vs " nor " @ ", so truncating it
    at the first such substring leaves it whole, and its six tokens would
    be passed over; the parser cuts it after "WR1" and pushes the
    record. *)
Lemma tabbed_matchup_is_cut :
  FirstMatchupCut jeffersonTabbed jeffersonTabbed
  /\ TeamAware.classify (split sepSpaces (trim jeffersonTabbed)) = Ret None
  /\ TeamAware.cleanLine jeffersonTabbed = Some "12 Justin Jefferson WR1"
  /\ ~ FirstMatchupCut jeffersonTabbed "12 Justin Jefferson WR1"
  /\ TeamAware.parseLine jeffersonTabbed = Ret (Some jefferson).
Proof.
  assert (W : FirstMatchupCut jeffersonTabbed jeffersonTabbed).
  { exact (first_piece_cut jeffersonTabbed). }
  split; [exact W|]. split; [reflexivity|]. split; [reflexivity|].
  split; [|reflexivity].
  intros C. pose proof (cut_unique _ _ _ C W). discriminate.
Qed.

(** C4, amended.  The team-aware [parseLine] first turns every tab of the
    line into a space and then truncates the result at the first
    occurrence of " vs " or " @ ", whichever comes first, keeping the text
    before it (all of it when neither occurs); the tokens it classifies
    are those of that prefix.  For a line without tabs this is the
    truncation of the line itself.  So "12 Justin Jefferson WR1 vs GB"
    yields name "Justin Jefferson", position "WR", positional rank 1 and
    no team: nothing of "vs GB" is read. *)
Theorem matchup_cut_before_tokens :
  (forall line,
      exists cut,
        TeamAware.cleanLine line = Some cut
        /\ FirstMatchupCut (replaceTabs line) cut
        /\ (noTab line = true -> FirstMatchupCut line cut)
        /\ TeamAware.partsOf line = Ret (split sepSpaces (trim cut))
        /\ TeamAware.parseLine line
           = TeamAware.classify (split sepSpaces (trim cut)))
  /\ TeamAware.cleanLine "12 Justin Jefferson WR1 vs GB"
     = Some "12 Justin Jefferson WR1"
  /\ TeamAware.parseLine "12 Justin Jefferson WR1 vs GB"
     = Ret (Some jefferson).
Proof.
  split; [|split; reflexivity].
  intros line. destruct (aware_partsOf_eq line) as (cut & Hc & E).
  exists cut. pose proof (aware_cleanLine_cut _ _ Hc) as Hcut.
  repeat split; auto.
  - intros Hn. now rewrite (replaceTabs_noTab _ Hn) in Hcut.
  - unfold TeamAware.parseLine. now rewrite E.
Qed.

Lemma matchup_cut_before_tokens_witness :
  exists cut,
    TeamAware.cleanLine "9 Davante Adams WR4 @ DEN vs KC" = Some cut
    /\ FirstMatchupCut "9 Davante Adams WR4 @ DEN vs KC" cut.
Proof.
  destruct (proj1 matchup_cut_before_tokens "9 Davante Adams WR4 @ DEN vs KC")
    as (cut & Hc & _ & Hn & _).
  exists cut. split; [exact Hc | apply Hn; reflexivity].
Defined.

(* ------------------------------------------------------------------ *)
(** ** The team-aware lookup, layout by layout *)

Lemma len_app {A : Type} (l t : list A) : len (l ++ t) = len l + len t.
Proof. unfold len. rewrite length_app. lia. Qed.

Lemma len_nonneg {A : Type} (l : list A) : 0 <= len l.
Proof. unfold len. lia. Qed.

Lemma at_app_r {A : Type} (l t : list A) (i : Z) :
  0 <= i -> at_ (l ++ t) (len l + i) = at_ t i.
Proof.
  intros Hi. unfold at_, len.
  destruct (Z.ltb_spec (Z.of_nat (List.length l) + i) 0); [lia|].
  destruct (Z.ltb_spec i 0); [lia|].
  rewrite nth_error_app2 by lia. f_equal. lia.
Qed.

Lemma at_app_l {A : Type} (l t : list A) (i : Z) :
  i < len l -> at_ (l ++ t) i = at_ l i.
Proof.
  intros Hi. unfold at_, len in *.
  destruct (Z.ltb_spec i 0); [reflexivity|].
  apply nth_error_app1. lia.
Qed.

Lemma extract_truthy (v : option string) :
  (if truthy v then extractPositionAndRank v else None)
  = extractPositionAndRank v.
Proof. unfold extractPositionAndRank. now destruct (truthy v). Qed.

Lemma isTeam_truthy (v : option string) :
  (if truthy v then isTeam v else false) = isTeam v.
Proof. unfold isTeam. now destruct (truthy v). Qed.

(** The lookup on a single candidate token. *)
Lemma aware_resolve_one (x : string) :
  TeamAware.resolve [x]
  = match extractPositionAndRank (Some x) with
    | Some info => Ret (Some info, None, 0)
    | None =>
        if isTeam (Some x) then Ret (None, Some (toUpperCase x), 1)
        else Ret (None, None, 1)
    end.
Proof.
  unfold TeamAware.resolve.
  change (len [x]) with 1. change (1 >? 1) with false. cbv iota.
  change (at_ [x] (1 - 1)) with (Some x).
  change (truthy None) with false. cbv iota.
  destruct (extractPositionAndRank (Some x)); [reflexivity|].
  now destruct (isTeam (Some x)).
Qed.

(** The lookup on two candidate tokens or more: only the last two count. *)
Lemma aware_resolve_two (l : list string) (y x : string) :
  TeamAware.resolve (l ++ [y; x])
  = match extractPositionAndRank (Some x) with
    | Some info =>
        if isTeam (Some y)
        then Ret (Some info, Some (toUpperCase y), len l)
        else Ret (Some info, None, len l + 1)
    | None =>
        if isTeam (Some x) then
          match extractPositionAndRank (Some y) with
          | Some info => Ret (Some info, Some (toUpperCase x), len l)
          | None => Ret (None, Some (toUpperCase x), len l + 2)
          end
        else Ret (None, None, len l + 2)
    end.
Proof.
  unfold TeamAware.resolve. rewrite len_app.
  change (len [y; x]) with 2.
  pose proof (len_nonneg l) as Hl.
  destruct (Z.gtb_spec (len l + 2) 1) as [_|]; [|lia].
  replace (len l + 2 - 1) with (len l + 1) by lia.
  replace (len l + 2 - 2) with (len l + 0) by lia.
  rewrite !at_app_r by lia.
  change (at_ [y; x] 1) with (Some x). change (at_ [y; x] 0) with (Some y).
  rewrite extract_truthy, isTeam_truthy.
  destruct (extractPositionAndRank (Some x)).
  - destruct (isTeam (Some y)); cbn [receiver bind]; f_equal; f_equal; lia.
  - destruct (isTeam (Some x)); cbn [receiver bind]; [|reflexivity].
    destruct (extractPositionAndRank (Some y)); f_equal; f_equal; lia.
Qed.

Lemma last_two (ps : list string) :
  ps = [] \/ (exists x, ps = [x]) \/ exists l y x, ps = (l ++ [y; x])%list.
Proof.
  destruct ps as [|a ps] using rev_ind; [now left|]. right.
  destruct ps as [|b ps _] using rev_ind; [left; now exists a|].
  right. exists ps, b, a. now rewrite <- app_assoc.
Qed.

Lemma at_last (l : list string) (x : string) :
  at_ (l ++ [x]) (len (l ++ [x]) - 1) = Some x.
Proof.
  rewrite len_app. change (len [x]) with 1.
  replace (len l + 1 - 1) with (len l + 0) by lia.
  now rewrite at_app_r by lia.
Qed.

Lemma len_pos_nonnil {A : Type} (l : list A) : 0 < len l -> l <> [].
Proof. intros H ->. unfold len in H. simpl in H. lia. Qed.

(** What the lookup found, when it found a position and left a name. *)
Lemma aware_resolve_layout (ps : list string) (info : Pos.t)
    (ti : option string) (n : Z) :
  TeamAware.resolve ps = Ret (Some info, ti, n) -> 0 < n ->
  exists names, n = len names /\ names <> [] /\ Layout names info ps ti.
Proof.
  intros R Hn.
  destruct (last_two ps) as [->|[(x & ->)|(l & y & x & ->)]].
  - discriminate.
  - rewrite aware_resolve_one in R.
    destruct (extractPositionAndRank (Some x)).
    + injection R as _ _ <-. lia.
    + destruct (isTeam (Some x)); discriminate.
  - rewrite aware_resolve_two in R.
    destruct (extractPositionAndRank (Some x)) as [ix|] eqn:Ex.
    + destruct (isTeam (Some y)) eqn:Ty.
      * injection R as <- <- <-. exists l.
        split; [reflexivity|]. split; [now apply len_pos_nonnil|].
        rewrite (team_upper _ Ty). now constructor.
      * injection R as <- <- <-. exists (l ++ [y])%list.
        split; [rewrite len_app; reflexivity|].
        split; [now destruct l|].
        replace (l ++ [y; x])%list with ((l ++ [y]) ++ [x])%list
          by now rewrite <- app_assoc.
        constructor; [assumption|]. now rewrite at_last.
    + destruct (isTeam (Some x)) eqn:Tx; [|discriminate].
      destruct (extractPositionAndRank (Some y)) as [iy|] eqn:Ey;
        [|discriminate].
      injection R as <- <- <-. exists l.
      split; [reflexivity|]. split; [now apply len_pos_nonnil|].
      rewrite (team_upper _ Tx). now constructor.
Qed.

(** Conversely each layout is resolved to its position, team and name. *)
Lemma aware_layout_resolve (names ps : list string) (info : Pos.t)
    (ti : option string) :
  Layout names info ps ti ->
  TeamAware.resolve ps = Ret (Some info, ti, len names).
Proof.
  intros [pos Ep Hn | t pos Ht Ep | pos t Ht Et Ep].
  - destruct names as [|a names _] using rev_ind.
    + cbn [app]. rewrite aware_resolve_one, Ep. reflexivity.
    + rewrite at_last in Hn. rewrite <- app_assoc. cbn [app].
      rewrite aware_resolve_two, Ep, Hn, len_app. reflexivity.
  - rewrite aware_resolve_two, Ep, Ht. now rewrite (team_upper _ Ht).
  - rewrite aware_resolve_two, Et, Ht, Ep. now rewrite (team_upper _ Ht).
Qed.

Lemma layout_split (names ps : list string) (info : Pos.t)
    (ti : option string) :
  Layout names info ps ti ->
  exists tail, ps = (names ++ tail)%list /\ tail <> [].
Proof.
  intros [pos _ _ | t pos _ _ | pos t _ _ _]; eexists;
    (split; [reflexivity | discriminate]).
Qed.

Lemma slice_names (names tail : list string) :
  slice (names ++ tail) 0 (len names) = names.
Proof.
  rewrite slice_0.
  - unfold len. rewrite Nat2Z.id, firstn_app, Nat.sub_diag, firstn_all.
    cbn [firstn]. apply app_nil_r.
  - rewrite len_app. pose proof (len_nonneg names).
    pose proof (len_nonneg tail). lia.
Qed.

Lemma aware_classify_cons (r : string) (ps : list string) :
  ps <> [] ->
  TeamAware.classify (r :: ps)
  = match parseInt (stripRankSuffix r) with
    | None => Ret None
    | Some rk =>
        x <- TeamAware.resolve ps ;;
        let '(positionInfo, teamInfo, nameEndIndex) := x in
        match positionInfo with
        | Some info =>
            if nameEndIndex >? 0
            then Ret (Some (mkPlayer rk (join (slice ps 0 nameEndIndex))
                                     info teamInfo))
            else Ret None
        | None => Ret None
        end
    end.
Proof.
  intros Hps. unfold TeamAware.classify.
  assert (L : (len (r :: ps) <? 2) = false).
  { destruct ps; [congruence|]. unfold len. cbn [List.length].
    apply Z.ltb_ge. lia. }
  rewrite L. change (at_ (r :: ps) 0) with (Some r). cbn [receiver bind].
  destruct (parseInt (stripRankSuffix r)); [|reflexivity].
  rewrite sliceFrom_1. cbn [tl].
  assert (Z : (len ps =? 0) = false).
  { destruct ps; [congruence|]. reflexivity. }
  now rewrite Z.
Qed.

(** Every token of a line is free of white space. *)
Lemma pieces_no_space (s : string) :
  forall k,
    Forall (fun t => forallb_str (fun c => negb (isSpace c)) t = true)
           (splitGo sepSpaces k s).
Proof.
  induction s as [|c r IH]; intros k; cbn [splitGo].
  - repeat constructor.
  - destruct k as [|k]; [|apply IH]. cbn [sepSpaces].
    destruct (isSpace c) eqn:Hc.
    + constructor; [reflexivity | apply IH].
    + specialize (IH 0%nat).
      destruct (splitGo sepSpaces 0 r) as [|p ps]; cbn [consHead].
      * constructor; [simpl; now rewrite Hc | constructor].
      * inversion IH; subst. constructor; [|assumption].
        simpl. now rewrite Hc.
Qed.

Lemma parts_words (c : string) :
  (len (split sepSpaces (trim c)) <? 2) = false ->
  Forall (fun t => isWord t = true) (split sepSpaces (trim c)).
Proof.
  intros L. pose proof (parts_nonempty _ L) as Hne.
  pose proof (pieces_no_space (trim c) 0%nat) as Hsp.
  fold (split sepSpaces (trim c)) in Hsp.
  rewrite Forall_forall in *. intros t Hin.
  specialize (Hne t Hin). specialize (Hsp t Hin). unfold isWord.
  destruct t; [congruence|]. cbn [isEmpty negb andb]. exact Hsp.
Qed.

Lemma aware_parts_cons (line : string) (parts : list string) (p : Player) :
  TeamAware.partsOf line = Ret parts ->
  TeamAware.classify parts = Ret (Some p) ->
  exists r ps, parts = r :: ps /\ ps <> [] /\ (len parts <? 2) = false.
Proof.
  intros _ C. unfold TeamAware.classify in C.
  destruct (len parts <? 2) eqn:L; [discriminate|].
  destruct parts as [|r [|a ps]]; try discriminate.
  exists r, (a :: ps). repeat split; congruence.
Qed.

(* ------------------------------------------------------------------ *)
(** ** Further properties of the team-aware parser *)

(** Lines with a record, in terms of their tokens. *)
Lemma aware_parseLine_layout (line : string) (p : Player) :
  TeamAware.parseLine line = Ret (Some p)
  <-> exists r rk names info ps ti,
        TeamAware.partsOf line = Ret (r :: ps)
        /\ parseInt (stripRankSuffix r) = Some rk
        /\ names <> []
        /\ Layout names info ps ti
        /\ p = mkPlayer rk (join names) info ti.
Proof.
  unfold TeamAware.parseLine.
  destruct (aware_partsOf_eq line) as (c & _ & E). rewrite E. cbn [bind].
  split.
  - intros C.
    destruct (aware_parts_cons _ _ _ E C) as (r & ps & Hp & Hps & _).
    rewrite Hp in *. rewrite (aware_classify_cons _ _ Hps) in C.
    destruct (parseInt (stripRankSuffix r)) as [rk|] eqn:Er; [|discriminate].
    destruct (TeamAware.resolve ps) as [[[pi ti] n]|] eqn:R; [|discriminate].
    cbn [bind] in C. destruct pi as [info|]; [|discriminate].
    destruct (Z.gtb_spec n 0) as [Hn|]; [|discriminate].
    destruct (aware_resolve_layout _ _ _ _ R Hn) as (names & -> & Hne & Lay).
    exists r, rk, names, info, ps, ti. repeat split; auto.
    destruct (layout_split _ _ _ _ Lay) as (tail & -> & _).
    rewrite slice_names in C. now injection C as <-.
  - intros (r & rk & names & info & ps & ti & Ep & Er & Hne & Lay & ->).
    injection Ep as ->.
    destruct (layout_split _ _ _ _ Lay) as (tail & Hps & Ht).
    assert (Hps' : ps <> []) by (subst ps; now destruct names).
    rewrite (aware_classify_cons _ _ Hps'), Er.
    rewrite (aware_layout_resolve _ _ _ _ Lay). cbn [bind].
    assert (Hn : 0 < len names).
    { destruct names; [congruence|]. unfold len. cbn [List.length]. lia. }
    destruct (Z.gtb_spec (len names) 0); [|lia].
    subst ps. now rewrite slice_names.
Qed.

(** X1. The team-aware parser pushes a record for a line exactly when the
    tokens of the line are a rank token that [parseInt] reads, one or more
    name tokens, and one of the three endings (position; team, position;
    position, team).  The record then holds the rank read, the name tokens
    joined by single spaces, the position and positional rank of the
    position token, and the team token if there is one. *)
Theorem aware_record_anatomy (line : string) (p : Player) :
  TeamAware.parseLine line = Ret (Some p)
  <-> exists r rk names info ps ti,
        TeamAware.partsOf line = Ret (r :: ps)
        /\ parseInt (stripRankSuffix r) = Some rk
        /\ names <> []
        /\ Layout names info ps ti
        /\ p = mkPlayer rk (join names) info ti.
Proof. exact (aware_parseLine_layout line p). Qed.

Lemma aware_record_anatomy_witness :
  TeamAware.parseLine "3. Tyreek Hill WR2 MIA"
  = Ret (Some {| rank := 3; name := "Tyreek Hill"; position := "WR";
                 positionalRank := Some 2; team := Some "MIA" |}).
Proof.
  apply (proj2 (aware_record_anatomy "3. Tyreek Hill WR2 MIA" _)).
  exists "3.", 3, ["Tyreek"; "Hill"],
    {| Pos.base := "WR"; Pos.rank := Some 2 |},
    ["Tyreek"; "Hill"; "WR2"; "MIA"], (Some "MIA").
  split; [reflexivity|]. split; [reflexivity|]. split; [discriminate|].
  split; [|reflexivity].
  apply (PositionTeam ["Tyreek"; "Hill"] _ "WR2" "MIA"); reflexivity.
Defined.

(** X2. The rank of a record pushed by the team-aware parser is what
    [parseInt] reads in the first token of the line, one trailing "." or
    ")" removed. *)
Theorem aware_rank_read (line : string) (p : Player) :
  TeamAware.parseLine line = Ret (Some p) ->
  parseInt (stripRankSuffix (firstToken line)) = Some (rank p).
Proof.
  unfold TeamAware.parseLine.
  destruct (aware_partsOf_eq line) as (c & _ & E). rewrite E. cbn [bind].
  intros C. apply aware_classify_inv in C
    as (p0 & rk & info & ti & n & L & E0 & Er & _ & _ & ->).
  now rewrite <- (aware_rank_token _ _ _ E L E0).
Qed.

Lemma aware_rank_read_witness :
  parseInt (stripRankSuffix (firstToken "12) Justin Jefferson MIN WR1"))
  = Some 12.
Proof.
  apply (aware_rank_read "12) Justin Jefferson MIN WR1"
           {| rank := 12; name := "Justin Jefferson"; position := "WR";
              positionalRank := Some 1; team := Some "MIN" |}).
  reflexivity.
Defined.

(** X3. The name of a record pushed by the team-aware parser is a
    non-empty sequence of tokens of the line joined by single spaces; each
    token is non-empty and holds no white space (so the name has no tab,
    no line break, and neither starts nor ends with a space). *)
Theorem aware_name_words (line : string) (p : Player) :
  TeamAware.parseLine line = Ret (Some p) ->
  exists names,
    names <> []
    /\ Forall (fun w => isWord w = true) names
    /\ name p = join names.
Proof.
  intros H. pose proof H as H'.
  apply aware_parseLine_layout in H
    as (r & rk & names & info & ps & ti & Ep & _ & Hne & Lay & ->).
  exists names. split; [assumption|]. split; [|reflexivity].
  destruct (aware_partsOf_eq line) as (c & _ & E). rewrite E in Ep.
  injection Ep as Ep.
  unfold TeamAware.parseLine in H'. rewrite E in H'. cbn [bind] in H'.
  destruct (aware_parts_cons _ _ _ E H') as (_ & _ & _ & _ & L).
  pose proof (parts_words _ L) as W. rewrite Ep in W.
  inversion W as [|? ? _ Wps]; subst.
  destruct (layout_split _ _ _ _ Lay) as (tail & -> & _).
  apply Forall_app in Wps. tauto.
Qed.

Lemma aware_name_words_witness :
  exists names,
    names <> []
    /\ Forall (fun w => isWord w = true) names
    /\ "Amon-Ra St. Brown" = join names.
Proof.
  apply (aware_name_words "4 Amon-Ra St. Brown DET WR3"
           {| rank := 4; name := "Amon-Ra St. Brown"; position := "WR";
              positionalRank := Some 3; team := Some "DET" |}).
  reflexivity.
Defined.

(** X4. The team of a record pushed by the team-aware parser, when there
    is one, is two or three letters A-Z. *)
Theorem aware_team_shape (line : string) (p : Player) (t : string) :
  TeamAware.parseLine line = Ret (Some p) ->
  team p = Some t ->
  isTeamShape t = true.
Proof.
  intros H Ht. apply aware_parseLine_layout in H
    as (r & rk & names & info & ps & ti & _ & _ & _ & Lay & ->).
  cbn [team mkPlayer] in Ht. subst ti.
  assert (T : isTeam (Some t) = true) by (inversion Lay; assumption).
  unfold isTeam in T. destruct (truthy (Some t)); [assumption|discriminate].
Qed.

Lemma aware_team_shape_witness : isTeamShape "KC" = true.
Proof.
  apply (aware_team_shape "5 Patrick Mahomes QB1 KC" mahomes "KC");
    reflexivity.
Defined.

(* ------------------------------------------------------------------ *)
(** ** The basic scan *)

Lemma at_of_nat {A : Type} (l : list A) (i : nat) :
  at_ l (Z.of_nat i) = nth_error l i.
Proof.
  unfold at_. destruct (Z.ltb_spec (Z.of_nat i) 0); [lia|].
  now rewrite Nat2Z.id.
Qed.

Lemma firstn_snoc {A : Type} (l : list A) (m : nat) (x : A) :
  nth_error l m = Some x -> firstn (S m) l = (firstn m l ++ [x])%list.
Proof.
  revert m. induction l as [|a l IH]; intros [|m]; try discriminate.
  - intros H. injection H as ->. reflexivity.
  - intros H. cbn [firstn app]. f_equal. now apply IH.
Qed.

Lemma extract_None_absent : extractPositionAndRank None = None.
Proof. reflexivity. Qed.

(** The scan stops at the rightmost token, among the first [n], that is a
    position. *)
Lemma basic_find_sound (ps : list string) (n : nat) (info : Pos.t) (i : Z) :
  (n <= List.length ps)%nat ->
  Basic.findPosition ps n = (Some info, i) ->
  exists names pos after,
    firstn n ps = (names ++ pos :: after)%list
    /\ i = len names
    /\ extractPositionAndRank (Some pos) = Some info
    /\ Forall (fun t => extractPositionAndRank (Some t) = None) after.
Proof.
  induction n as [|m IH]; intros Hn; cbn [Basic.findPosition];
    [discriminate|].
  rewrite at_of_nat.
  destruct (nth_error ps m) as [x|] eqn:Ex;
    [|apply nth_error_None in Ex; lia].
  rewrite (firstn_snoc _ _ _ Ex).
  destruct (extractPositionAndRank (Some x)) as [ix|] eqn:E.
  - intros H. injection H as <- <-.
    exists (firstn m ps), x, []. repeat split; auto.
    unfold len. rewrite length_firstn. f_equal. lia.
  - intros H. destruct (IH ltac:(lia) H) as (names & pos & after & F & ? & ? & ?).
    exists names, pos, (after ++ [x])%list. rewrite F.
    repeat split; auto.
    + now rewrite <- app_assoc.
    + apply Forall_app. split; [assumption|]. now constructor.
Qed.

Lemma basic_find_prefix (l t : list string) (n : nat) :
  (n <= List.length l)%nat ->
  Basic.findPosition (l ++ t) n = Basic.findPosition l n.
Proof.
  induction n as [|m IH]; intros Hn; cbn [Basic.findPosition];
    [reflexivity|].
  rewrite !at_of_nat, nth_error_app1 by lia.
  destruct (extractPositionAndRank (nth_error l m)); [reflexivity|].
  apply IH. lia.
Qed.

Lemma basic_find_rightmost (names after : list string) (pos : string)
    (info : Pos.t) :
  extractPositionAndRank (Some pos) = Some info ->
  Forall (fun t => extractPositionAndRank (Some t) = None) after ->
  Basic.findPosition (names ++ pos :: after)
                     (List.length (names ++ pos :: after))
  = (Some info, len names).
Proof.
  intros Ep. induction after as [|x after IH] using rev_ind; intros Ha.
  - rewrite length_app. cbn [List.length].
    replace (List.length names + 1)%nat with (S (List.length names)) by lia.
    cbn [Basic.findPosition]. rewrite at_of_nat.
    rewrite nth_error_app2, Nat.sub_diag by lia. cbn [nth_error].
    now rewrite Ep.
  - apply Forall_app in Ha as [Ha Hx]. inversion Hx as [|? ? Ex _]; subst.
    replace (names ++ pos :: after ++ [x])%list
      with ((names ++ pos :: after) ++ [x])%list
      by (rewrite <- app_assoc; reflexivity).
    rewrite length_app. cbn [List.length].
    replace (List.length (names ++ pos :: after) + 1)%nat
      with (S (List.length (names ++ pos :: after))) by lia.
    cbn [Basic.findPosition]. rewrite at_of_nat.
    rewrite nth_error_app2, Nat.sub_diag by lia. cbn [nth_error].
    rewrite Ex. rewrite basic_find_prefix by lia. now apply IH.
Qed.

Lemma basic_find_none (ps : list string) (n : nat) (i : Z) :
  Basic.findPosition ps n = (None, i) -> i = -1.
Proof.
  induction n as [|m IH]; cbn [Basic.findPosition].
  - intros H. now injection H as <-.
  - destruct (extractPositionAndRank (at_ ps (Z.of_nat m)));
      [discriminate | exact IH].
Qed.

Lemma basic_classify_cons (r : string) (ps : list string) :
  ps <> [] ->
  Basic.classify (r :: ps)
  = match parseInt (stripRankSuffix r) with
    | None => Ret None
    | Some rk =>
        let '(positionInfo, positionPartIndex) :=
          Basic.findPosition ps (List.length ps) in
        match positionInfo with
        | Some info =>
            let name := join (slice ps 0 positionPartIndex) in
            if negb (isEmpty name)
            then Ret (Some (mkPlayer rk name info None))
            else Ret None
        | None => Ret None
        end
    end.
Proof.
  intros Hps. unfold Basic.classify.
  assert (L : (len (r :: ps) <? 2) = false).
  { destruct ps; [congruence|]. unfold len. cbn [List.length].
    apply Z.ltb_ge. lia. }
  rewrite L. change (at_ (r :: ps) 0) with (Some r). cbn [receiver bind].
  destruct (parseInt (stripRankSuffix r)); [|reflexivity].
  now rewrite sliceFrom_1.
Qed.

Lemma basic_partsOf_eq (line : string) :
  exists c, Basic.cleanLine line = Some c
            /\ Basic.partsOf line = Ret (split sepSpaces (trim c)).
Proof.
  destruct (basic_cleanLine_defined line) as (c & Hc).
  exists c. split; [assumption|].
  unfold Basic.partsOf. now rewrite Hc.
Qed.

Lemma isEmpty_false (s : string) : negb (isEmpty s) = true <-> s <> "".
Proof. destruct s; simpl; split; congruence. Qed.

(** Lines with a record, in terms of their tokens. *)
Lemma basic_parseLine_layout (line : string) (p : Player) :
  Basic.parseLine line = Ret (Some p)
  <-> exists r rk names pos after info,
        Basic.partsOf line = Ret (r :: names ++ pos :: after)
        /\ parseInt (stripRankSuffix r) = Some rk
        /\ join names <> ""
        /\ extractPositionAndRank (Some pos) = Some info
        /\ Forall (fun t => extractPositionAndRank (Some t) = None) after
        /\ p = mkPlayer rk (join names) info None.
Proof.
  unfold Basic.parseLine.
  destruct (basic_partsOf_eq line) as (c & _ & E). rewrite E. cbn [bind].
  split.
  - intros C.
    assert (Hp : exists r ps, split sepSpaces (trim c) = r :: ps /\ ps <> []).
    { unfold Basic.classify in C.
      destruct (len (split sepSpaces (trim c)) <? 2) eqn:L; [discriminate|].
      destruct (split sepSpaces (trim c)) as [|r [|a ps]]; try discriminate.
      exists r, (a :: ps). split; congruence. }
    destruct Hp as (r & ps & Hp & Hps). rewrite Hp in *.
    rewrite (basic_classify_cons _ _ Hps) in C.
    destruct (parseInt (stripRankSuffix r)) as [rk|] eqn:Er; [|discriminate].
    destruct (Basic.findPosition ps (List.length ps)) as [[info|] i] eqn:F;
      [|discriminate].
    apply basic_find_sound in F as (names & pos & after & Hf & -> & Ep & Ha);
      [|lia].
    rewrite firstn_all in Hf. subst ps. rewrite slice_names in C.
    cbv zeta in C. destruct (negb (isEmpty (join names))) eqn:N; [|discriminate].
    injection C as <-. exists r, rk, names, pos, after, info.
    repeat split; auto. now apply isEmpty_false.
  - intros (r & rk & names & pos & after & info & Ep & Er & Hn & Ex & Ha & ->).
    injection Ep as ->.
    rewrite basic_classify_cons by now destruct names.
    rewrite Er, (basic_find_rightmost _ _ _ _ Ex Ha), slice_names.
    cbv zeta. apply isEmpty_false in Hn. now rewrite Hn.
Qed.

(* ------------------------------------------------------------------ *)
(** ** Properties of the basic parser *)

(** X5. The basic parser pushes a record for a line exactly when the first
    token is read by [parseInt], some later token is a position, and the
    tokens between the rank and the rightmost position token join to a
    non-empty name.  The record holds that rank, that name, the position
    of the rightmost position token and no team; what follows the position
    token is dropped. *)
Theorem basic_record_anatomy (line : string) (p : Player) :
  Basic.parseLine line = Ret (Some p)
  <-> exists r rk names pos after info,
        Basic.partsOf line = Ret (r :: names ++ pos :: after)
        /\ parseInt (stripRankSuffix r) = Some rk
        /\ join names <> ""
        /\ extractPositionAndRank (Some pos) = Some info
        /\ Forall (fun t => extractPositionAndRank (Some t) = None) after
        /\ p = mkPlayer rk (join names) info None.
Proof. exact (basic_parseLine_layout line p). Qed.

Lemma basic_record_anatomy_witness :
  Basic.parseLine "8 Travis Kelce TE1 out KC"
  = Ret (Some {| rank := 8; name := "Travis Kelce"; position := "TE";
                 positionalRank := Some 1; team := None |}).
Proof.
  apply (proj2 (basic_record_anatomy "8 Travis Kelce TE1 out KC" _)).
  exists "8", 8, ["Travis"; "Kelce"], "TE1", ["out"; "KC"],
    {| Pos.base := "TE"; Pos.rank := Some 1 |}.
  split; [reflexivity|]. split; [reflexivity|]. split; [discriminate|].
  split; [reflexivity|]. split; [|reflexivity].
  repeat constructor.
Defined.

(** X6. The basic [parseRankingsFromText] resolves for every input text,
    with the records of its lines in line order; no statement of its loop
    body throws.  A text of white space only resolves with no record. *)
Theorem basic_always_resolves :
  (forall text,
      Basic.parseRankingsFromText text
      = Resolved (flat_map (emitted Basic.parseLine) (split sepNewline text)))
  /\ (forall line, exists r, Basic.parseLine line = Ret r)
  /\ (forall text,
        allSpace text = true -> Basic.parseRankingsFromText text = Resolved []).
Proof.
  split; [exact basic_parse_spec|]. split; [exact basic_parseLine_total|].
  intros text H. unfold Basic.parseRankingsFromText.
  now rewrite (blank_text_lines _ H).
Qed.

Lemma basic_always_resolves_witness :
  Basic.parseRankingsFromText (nl " " (String TAB "")) = Resolved [].
Proof. apply (proj2 (proj2 basic_always_resolves)). reflexivity. Defined.

(** X7. Every record in the output of the basic [parseRankingsFromText]
    has a non-empty name, a position among QB, RB, WR, TE, K, DST, a
    positional rank that is zero or more when present, and no team. *)
Theorem basic_records_built (text : string) (out : list Player)
    (p : Player) :
  Basic.parseRankingsFromText text = Resolved out ->
  In p out ->
  BuiltRecord p /\ team p = None.
Proof.
  rewrite basic_parse_spec. intros E Hin. injection E as <-.
  apply emitted_In in Hin as (line & _ & Hp).
  apply basic_parseLine_layout in Hp
    as (r & rk & names & pos & after & info & _ & _ & Hn & Ex & _ & ->).
  apply extract_built in Ex as [Hb Hr].
  unfold BuiltRecord. cbn [name position positionalRank team mkPlayer].
  repeat split; auto.
Qed.

Lemma basic_records_built_witness :
  BuiltRecord {| rank := 5; name := "Patrick Mahomes KC"; position := "QB";
                 positionalRank := Some 1; team := None |}
  /\ team {| rank := 5; name := "Patrick Mahomes KC"; position := "QB";
             positionalRank := Some 1; team := None |} = None.
Proof.
  apply (basic_records_built "5 Patrick Mahomes KC QB1"
           [ {| rank := 5; name := "Patrick Mahomes KC"; position := "QB";
                positionalRank := Some 1; team := None |} ]);
    [reflexivity | left; reflexivity].
Defined.

(* ------------------------------------------------------------------ *)
(** ** The two parsers side by side *)


Lemma noTab_partsOf (line : string) :
  noTab line = true -> Basic.partsOf line = TeamAware.partsOf line.
Proof.
  intros H. unfold Basic.partsOf, TeamAware.partsOf, Basic.cleanLine,
    TeamAware.cleanLine. now rewrite (replaceTabs_noTab _ H).
Qed.




(* ------------------------------------------------------------------ *)
(** ** Lines are parsed one by one *)

Lemma consHead_app (c : ascii) (l t : list string) :
  l <> [] -> consHead c (l ++ t) = (consHead c l ++ t)%list.
Proof. destruct l; [congruence | reflexivity]. Qed.

Lemma split_newline_app (a b : string) :
  split sepNewline (a ++ String LF b)
  = (split sepNewline a ++ split sepNewline b)%list.
Proof.
  unfold split. induction a as [|c r IH].
  - reflexivity.
  - cbn [append splitGo sepNewline].
    destruct (Ascii.eqb c LF); rewrite IH; [reflexivity|].
    apply consHead_app.
    destruct (splitGo_cons sepNewline r 0%nat) as (p & ps & ->). discriminate.
Qed.

(** X9. Parsing two texts joined by a line feed gives the records of the
    first followed by the records of the second, for both parsers: a line
    is read the same way whatever lines surround it. *)
Theorem parse_line_feed (a b : string) :
  (exists oa ob,
      TeamAware.parseRankingsFromText a = Resolved oa
      /\ TeamAware.parseRankingsFromText b = Resolved ob
      /\ TeamAware.parseRankingsFromText (nl a b) = Resolved (oa ++ ob)%list)
  /\ (exists oa ob,
        Basic.parseRankingsFromText a = Resolved oa
        /\ Basic.parseRankingsFromText b = Resolved ob
        /\ Basic.parseRankingsFromText (nl a b) = Resolved (oa ++ ob)%list).
Proof.
  unfold nl. split; eexists; eexists.
  - rewrite !aware_parse_spec, split_newline_app, flat_map_app. auto.
  - rewrite !basic_parse_spec, split_newline_app, flat_map_app. auto.
Qed.

(* ------------------------------------------------------------------ *)
(** ** What follows the matchup separator *)

Lemma startsWith_ext (p x b : string) :
  (String.length p <= String.length x)%nat ->
  startsWith (x ++ b) p = startsWith x p.
Proof.
  unfold startsWith. revert x.
  induction p as [|a p IH]; intros x Hl.
  - destruct x; cbn [append]; [now destruct b | reflexivity].
  - destruct x as [|c x]; [simpl in Hl; lia|]. cbn [append String.prefix].
    destruct (ascii_dec a c); [|reflexivity].
    apply IH. simpl in Hl. lia.
Qed.

Lemma sepMatchup_ext (x b : string) :
  (4 <= String.length x)%nat -> sepMatchup (x ++ b) = sepMatchup x.
Proof.
  intros Hl. unfold sepMatchup.
  rewrite !startsWith_ext; [reflexivity | simpl; lia | simpl; lia].
Qed.

Lemma length_append (a b : string) :
  String.length (a ++ b) = (String.length a + String.length b)%nat.
Proof. induction a as [|c a IH]; simpl; [reflexivity | now rewrite IH]. Qed.

Lemma matchup_length (sep : string) :
  In sep MATCHUPS -> (3 <= String.length sep)%nat.
Proof. intros [<-|[<-|[]]]; simpl; lia. Qed.

Lemma matchup_at_head (sep b : string) :
  In sep MATCHUPS -> exists k, sepMatchup (sep ++ b) = S k.
Proof.
  intros [<-|[<-|[]]]; unfold sepMatchup, startsWith; cbn;
    destruct b; eexists; reflexivity.
Qed.

Lemma first_piece_suffix (a sep b1 b2 : string) :
  In sep MATCHUPS ->
  hd "" (split sepMatchup (a ++ sep ++ b1))
  = hd "" (split sepMatchup (a ++ sep ++ b2)).
Proof.
  intros Hin. unfold split. induction a as [|c r IH].
  - cbn [append].
    destruct (matchup_at_head sep b1 Hin) as (k1 & E1).
    destruct (matchup_at_head sep b2 Hin) as (k2 & E2).
    destruct sep as [|s0 sep]; [now apply matchup_nonempty in Hin|].
    cbn [append splitGo] in *. now rewrite E1, E2.
  - cbn [append splitGo].
    assert (E : forall b, sepMatchup (String c (r ++ sep ++ b))
                          = sepMatchup (String c (r ++ sep))).
    { intros b.
      replace (String c (r ++ sep ++ b)) with (String c (r ++ sep) ++ b)
        by (cbn [append]; now rewrite append_assoc).
      apply sepMatchup_ext. cbn [String.length]. rewrite length_append.
      pose proof (matchup_length _ Hin). lia. }
    rewrite !E. destruct (sepMatchup (String c (r ++ sep))); [|reflexivity].
    rewrite !hd_consHead. now rewrite IH.
Qed.

Lemma replaceTabs_app (a b : string) :
  replaceTabs (a ++ b) = replaceTabs a ++ replaceTabs b.
Proof. induction a as [|c a IH]; simpl; [reflexivity | now rewrite IH]. Qed.

Lemma replaceTabs_matchup (sep : string) :
  In sep MATCHUPS -> replaceTabs sep = sep.
Proof. intros [<-|[<-|[]]]; reflexivity. Qed.

Lemma at_0_is_hd (l : list string) :
  l <> [] -> at_ l 0 = Some (hd "" l).
Proof. destruct l; [congruence | reflexivity]. Qed.

Lemma split_nonnil (sepLen : string -> nat) (s : string) :
  split sepLen s <> [].
Proof.
  unfold split. destruct (splitGo_cons sepLen s 0%nat) as (p & ps & ->).
  discriminate.
Qed.

(** X10. Whatever follows a matchup separator is ignored: two lines that
    agree up to and including an occurrence of " vs " or " @ " are parsed
    alike, by both parsers. *)
Theorem matchup_suffix_ignored (a sep b1 b2 : string) :
  In sep MATCHUPS ->
  TeamAware.parseLine (a ++ sep ++ b1) = TeamAware.parseLine (a ++ sep ++ b2)
  /\ Basic.parseLine (a ++ sep ++ b1) = Basic.parseLine (a ++ sep ++ b2).
Proof.
  intros Hin. split.
  - unfold TeamAware.parseLine, TeamAware.partsOf, TeamAware.cleanLine.
    rewrite !replaceTabs_app, (replaceTabs_matchup _ Hin).
    rewrite !at_0_is_hd by apply split_nonnil.
    now rewrite (first_piece_suffix _ _ _ (replaceTabs b2) Hin).
  - unfold Basic.parseLine, Basic.partsOf, Basic.cleanLine.
    rewrite !at_0_is_hd by apply split_nonnil.
    now rewrite (first_piece_suffix _ _ _ b2 Hin).
Qed.

Lemma matchup_suffix_ignored_witness :
  TeamAware.parseLine ("9 Davante Adams LV WR4" ++ " @ " ++ "DEN")
  = TeamAware.parseLine ("9 Davante Adams LV WR4" ++ " @ " ++ "KC QB1 vs")
  /\ Basic.parseLine ("9 Davante Adams LV WR4" ++ " @ " ++ "DEN")
     = Basic.parseLine ("9 Davante Adams LV WR4" ++ " @ " ++ "KC QB1 vs").
Proof.
  apply matchup_suffix_ignored. right; left; reflexivity.
Defined.

(* ------------------------------------------------------------------ *)
(** ** Sets of names *)

Lemma setHas_In (s : list string) (x : string) :
  setHas s x = true <-> In x s.
Proof.
  unfold setHas. rewrite existsb_exists. split.
  - intros (y & Hy & E). apply String.eqb_eq in E. now subst.
  - intros H. exists x. split; [assumption | apply String.eqb_refl].
Qed.

Lemma setHas_false (s : list string) (x : string) :
  setHas s x = false <-> ~ In x s.
Proof.
  rewrite <- setHas_In. destruct (setHas s x); split; congruence.
Qed.

Lemma setAdd_In (s : list string) (x y : string) :
  In y (setAdd s x) <-> In y s \/ y = x.
Proof.
  unfold setAdd. destruct (setHas s x) eqn:H.
  - apply setHas_In in H. split; [auto | intros [?| ->]; assumption].
  - rewrite in_app_iff. simpl. intuition.
Qed.

Lemma setAdd_NoDup (s : list string) (x : string) :
  NoDup s -> NoDup (setAdd s x).
Proof.
  intros Hs. unfold setAdd. destruct (setHas s x) eqn:H; [assumption|].
  apply setHas_false in H. apply NoDup_app; [assumption | repeat constructor; auto |].
  intros y Hy [<-|[]]. contradiction.
Qed.

Lemma setDelete_In (s : list string) (x y : string) :
  In y (setDelete s x) <-> In y s /\ y <> x.
Proof.
  unfold setDelete. rewrite filter_In.
  destruct (String.eqb_spec y x); simpl; intuition congruence.
Qed.

Lemma setDelete_absent (s : list string) (x : string) :
  ~ In x s -> setDelete s x = s.
Proof.
  unfold setDelete. induction s as [|y s IH]; simpl; [reflexivity|].
  intros H. destruct (String.eqb_spec y x) as [->|]; simpl.
  - exfalso. apply H. now left.
  - rewrite IH; [reflexivity|]. intros Hx. apply H. now right.
Qed.

Lemma addAll_In (a acc : list string) (y : string) :
  In y (fold_left setAdd a acc) <-> In y acc \/ In y a.
Proof.
  revert acc. induction a as [|x a IH]; intros acc; simpl; [tauto|].
  rewrite IH, setAdd_In. intuition.
Qed.

Lemma addAll_NoDup (a acc : list string) :
  NoDup acc -> NoDup (fold_left setAdd a acc).
Proof.
  revert acc. induction a as [|x a IH]; intros acc H; simpl; [assumption|].
  apply IH. now apply setAdd_NoDup.
Qed.

Lemma newSet_In (a : list string) (y : string) : In y (newSet a) <-> In y a.
Proof. unfold newSet. rewrite addAll_In. simpl. tauto. Qed.

Lemma newSet_NoDup (a : list string) : NoDup (newSet a).
Proof. apply addAll_NoDup. constructor. Qed.

Lemma addAll_fresh (a acc : list string) :
  NoDup (acc ++ a) -> fold_left setAdd a acc = (acc ++ a)%list.
Proof.
  revert acc. induction a as [|x a IH]; intros acc H; simpl.
  - now rewrite app_nil_r.
  - assert (Hx : ~ In x acc).
    { apply NoDup_remove_2 in H. intros Hin. apply H.
      apply in_or_app. now left. }
    unfold setAdd at 2. apply setHas_false in Hx. rewrite Hx.
    rewrite IH; rewrite <- app_assoc; [reflexivity | exact H].
Qed.

(** A list without repetition is its own set. *)
Lemma newSet_NoDup_id (a : list string) : NoDup a -> newSet a = a.
Proof. intros H. unfold newSet. now rewrite addAll_fresh. Qed.

Lemma toggled_NoDup (x : string) (prev : list string) :
  NoDup (toggled x prev).
Proof.
  unfold toggled. destruct (setHas (newSet prev) x).
  - unfold setDelete. apply NoDup_filter, newSet_NoDup.
  - apply setAdd_NoDup, newSet_NoDup.
Qed.

Lemma toggled_In (x y : string) (prev : list string) :
  In y (toggled x prev)
  <-> (In y prev /\ y <> x) \/ (y = x /\ ~ In x prev).
Proof.
  unfold toggled. destruct (setHas (newSet prev) x) eqn:H.
  - apply setHas_In in H. rewrite newSet_In in H.
    rewrite setDelete_In, newSet_In. split.
    + intros Hy. now left.
    + intros [Hy|[_ Hn]]; [assumption | contradiction].
  - apply setHas_false in H. rewrite newSet_In in H.
    rewrite setAdd_In, newSet_In. split.
    + intros [Hy| ->].
      * left. split; [assumption|]. intros ->. contradiction.
      * right. now split.
    + intros [[Hy _]|[-> _]]; [now left | now right].
Qed.

(* ------------------------------------------------------------------ *)
(** ** Favourites and active teams *)

(** X11. Toggling a name (a favourite player, an active team) yields a
    list without repetition in which that name is present exactly when it
    was absent before, and every other name is kept or left out as
    before. *)
Theorem toggle_membership (x : string) (sel : Selection) :
  (forall y,
      In y (favoriteNames (handleToggleFavorite x sel))
      <-> (In y (favoriteNames sel) /\ y <> x)
          \/ (y = x /\ ~ In x (favoriteNames sel)))
  /\ NoDup (favoriteNames (handleToggleFavorite x sel))
  /\ (forall y,
        In y (activeTeamNames (handleToggleTeam x sel))
        <-> (In y (activeTeamNames sel) /\ y <> x)
            \/ (y = x /\ ~ In x (activeTeamNames sel)))
  /\ NoDup (activeTeamNames (handleToggleTeam x sel)).
Proof.
  cbn [favoriteNames activeTeamNames handleToggleFavorite handleToggleTeam].
  repeat split; try apply toggled_NoDup; try apply toggled_In.
Qed.

(** X12. Toggling the same name twice: when the list has no repetition
    and the name was absent, the list is back as it was; when the name was
    present, it has moved to the end. *)
Theorem toggle_twice (x : string) (prev : list string) :
  NoDup prev ->
  (~ In x prev -> toggled x (toggled x prev) = prev)
  /\ (In x prev ->
      toggled x (toggled x prev) = (setDelete prev x ++ [x])%list).
Proof.
  intros Hnd. split; intros Hx.
  - assert (E : toggled x prev = (prev ++ [x])%list).
    { unfold toggled. rewrite (newSet_NoDup_id _ Hnd).
      apply setHas_false in Hx. unfold setAdd. now rewrite Hx. }
    rewrite E. unfold toggled.
    assert (Hnd' : NoDup (prev ++ [x])).
    { rewrite <- E. apply toggled_NoDup. }
    rewrite (newSet_NoDup_id _ Hnd').
    assert (Hin : setHas (prev ++ [x]) x = true).
    { apply setHas_In, in_or_app. right. now left. }
    rewrite Hin. unfold setDelete. rewrite filter_app. simpl.
    rewrite String.eqb_refl. simpl. rewrite app_nil_r.
    now apply setDelete_absent.
  - assert (E : toggled x prev = setDelete prev x).
    { unfold toggled. rewrite (newSet_NoDup_id _ Hnd).
      apply setHas_In in Hx. now rewrite Hx. }
    rewrite E. unfold toggled.
    assert (Hnd' : NoDup (setDelete prev x)).
    { unfold setDelete. now apply NoDup_filter. }
    rewrite (newSet_NoDup_id _ Hnd').
    assert (Hout : setHas (setDelete prev x) x = false).
    { apply setHas_false. rewrite setDelete_In. tauto. }
    rewrite Hout. unfold setAdd. now rewrite Hout.
Qed.

Lemma toggle_twice_witness :
  toggled "Josh Allen" (toggled "Josh Allen" ["Bijan Robinson"; "CeeDee Lamb"])
  = ["Bijan Robinson"; "CeeDee Lamb"].
Proof.
  apply (proj1 (toggle_twice "Josh Allen" ["Bijan Robinson"; "CeeDee Lamb"]
                  ltac:(repeat constructor; simpl; intuition discriminate))).
  simpl. intuition discriminate.
Defined.

(* ------------------------------------------------------------------ *)
(** ** Sorting *)

Lemma insertBy_perm {A : Type} (le : A -> A -> bool) (x : A) (l : list A) :
  Permutation (insertBy le x l) (x :: l).
Proof.
  induction l as [|y l IH]; simpl; [reflexivity|].
  destruct (le x y); [reflexivity|].
  rewrite IH. apply perm_swap.
Qed.

Lemma sortBy_perm {A : Type} (le : A -> A -> bool) (l : list A) :
  Permutation (sortBy le l) l.
Proof.
  induction l as [|x l IH]; simpl; [reflexivity|].
  rewrite insertBy_perm. now constructor.
Qed.

Section InsertionSort.

Context {A : Type} (le : A -> A -> bool).
Hypothesis le_total : forall a b, le a b = true \/ le b a = true.

Let R (a b : A) : Prop := le a b = true.

Lemma insertBy_HdRel (x y : A) (l : list A) :
  R y x -> HdRel R y l -> HdRel R y (insertBy le x l).
Proof.
  intros Hyx Hl. destruct l as [|z l]; simpl.
  - now constructor.
  - destruct (le x z); constructor; [assumption|].
    now inversion Hl.
Qed.

Lemma insertBy_Sorted (x : A) (l : list A) :
  Sorted R l -> Sorted R (insertBy le x l).
Proof.
  induction l as [|y l IH]; intros Hs; simpl.
  - repeat constructor.
  - destruct (le x y) eqn:E.
    + constructor; [assumption|]. now constructor.
    + inversion Hs as [|? ? Hl Hy]; subst. constructor; [now apply IH|].
      apply insertBy_HdRel; [|assumption].
      destruct (le_total x y) as [H|H]; [congruence | exact H].
Qed.

Lemma sortBy_Sorted (l : list A) : Sorted R (sortBy le l).
Proof.
  induction l as [|x l IH]; simpl; [constructor|].
  now apply insertBy_Sorted.
Qed.

End InsertionSort.


(* ------------------------------------------------------------------ *)
(** ** Creating a team *)

Lemma trimStart_fixed (s : string) : sepSpaces s = 0%nat -> trimStart s = s.
Proof.
  destruct s as [|c r]; simpl; [reflexivity|].
  now destruct (isSpace c).
Qed.

Lemma trim_idem (s : string) : trim (trim s) = trim s.
Proof.
  unfold trim at 1. rewrite (trimStart_fixed _ (trim_head s)).
  unfold trim. apply trimEnd_idem.
Qed.

Lemma team_color_defined {A : Type} (l : list A) :
  exists c,
    at_ TEAM_COLORS (Z.rem (len l) (len TEAM_COLORS)) = Some c
    /\ In c TEAM_COLORS.
Proof.
  change (len TEAM_COLORS) with 8.
  pose proof (len_nonneg l) as Hl.
  pose proof (Z.rem_bound_pos (len l) 8 Hl ltac:(lia)) as Hb.
  assert (K : exists k : nat, Z.rem (len l) 8 = Z.of_nat k /\ (k < 8)%nat).
  { exists (Z.to_nat (Z.rem (len l) 8)). lia. }
  destruct K as (k & -> & Hk). rewrite at_of_nat.
  destruct (nth_error TEAM_COLORS k) as [c|] eqn:E.
  - exists c. split; [reflexivity|]. now apply nth_error_In in E.
  - apply nth_error_None in E. simpl in E. lia.
Qed.

Lemma lower_names_fresh (ts : list Team.t) (n : string) :
  existsb (fun team => String.eqb (toLowerCase (Team.name team))
                                  (toLowerCase n)) ts = false ->
  ~ In (toLowerCase n) (map (fun t => toLowerCase (Team.name t)) ts).
Proof.
  intros H Hin. apply in_map_iff in Hin as (t & E & Ht).
  assert (X : existsb (fun team => String.eqb (toLowerCase (Team.name team))
                                              (toLowerCase n)) ts = true).
  { apply existsb_exists. exists t. split; [assumption|].
    now apply String.eqb_eq. }
  congruence.
Qed.

Lemma created_team (sel sel' : Selection) :
  handleCreateTeam sel = Updated sel' ->
  favoriteNames sel <> []
  /\ trim (newTeamName sel) <> ""
  /\ ~ In (toLowerCase (trim (newTeamName sel)))
          (map (fun t => toLowerCase (Team.name t)) (teams sel))
  /\ exists c,
       at_ TEAM_COLORS (Z.rem (len (teams sel)) (len TEAM_COLORS)) = Some c
       /\ In c TEAM_COLORS
       /\ sel' = {| teams :=
                      (teams sel
                       ++ [ {| Team.name := trim (newTeamName sel);
                               Team.players :=
                                 sortStrings (favoriteNames sel);
                               Team.color := Some c |} ])%list;
                    favoriteNames := [];
                    activeTeamNames := activeTeamNames sel;
                    newTeamName := "" |}.
Proof.
  unfold handleCreateTeam.
  destruct (len (favoriteNames sel) =? 0) eqn:F; [discriminate|].
  destruct (isEmpty (trim (newTeamName sel))) eqn:N; [discriminate|].
  destruct (existsb _ (teams sel)) eqn:D; [discriminate|].
  intros H. injection H as <-.
  split. { intros E. rewrite E in F. discriminate. }
  split. { intros E. rewrite E in N. discriminate. }
  split; [now apply lower_names_fresh|].
  destruct (team_color_defined (teams sel)) as (c & Hc & Hin).
  exists c. rewrite Hc. auto.
Qed.

(** X13. When [handleCreateTeam] saves a team, the team is appended to the
    saved teams under the trimmed name; its players are the favourites
    sorted (the same names, in ascending order of code units); its colour
    is the entry of [TEAM_COLORS] at the number of teams saved before,
    modulo the palette size, and is always defined; the favourites and
    the name field are emptied and the active teams are left alone. *)
Theorem create_team_result (sel sel' : Selection) :
  handleCreateTeam sel = Updated sel' ->
  exists team c,
    teams sel' = (teams sel ++ [team])%list
    /\ Team.name team = trim (newTeamName sel)
    /\ Permutation (Team.players team) (favoriteNames sel)
    /\ Sorted (fun a b => String.leb a b = true) (Team.players team)
    /\ Team.color team = Some c
    /\ nth_error TEAM_COLORS (List.length (teams sel) mod 8) = Some c
    /\ favoriteNames sel' = []
    /\ newTeamName sel' = ""
    /\ activeTeamNames sel' = activeTeamNames sel.
Proof.
  intros H. apply created_team in H as (_ & _ & _ & c & Hc & _ & ->).
  eexists. exists c. cbn [teams favoriteNames newTeamName activeTeamNames].
  split; [reflexivity|]. cbn [Team.name Team.players Team.color].
  repeat split.
  - apply sortBy_perm.
  - apply sortBy_Sorted. apply String.leb_total.
  - rewrite <- Hc. change (len TEAM_COLORS) with 8. unfold len.
    rewrite <- (at_of_nat TEAM_COLORS). f_equal.
    rewrite Z.rem_mod_nonneg by lia.
    now rewrite (Nat2Z.inj_mod _ 8).
Qed.

Lemma create_team_result_witness :
  exists team c,
    [team] = ([] ++ [team])%list
    /\ Team.name team = "My Team"
    /\ Permutation (Team.players team) ["Josh Allen"; "Bijan Robinson"]
    /\ Sorted (fun a b => String.leb a b = true) (Team.players team)
    /\ Team.color team = Some c
    /\ nth_error TEAM_COLORS 0 = Some c.
Proof.
  destruct (create_team_result
              {| teams := []; favoriteNames := ["Josh Allen"; "Bijan Robinson"];
                 activeTeamNames := []; newTeamName := "  My Team " |}
              {| teams := [ {| Team.name := "My Team";
                               Team.players := ["Bijan Robinson"; "Josh Allen"];
                               Team.color := Some "#0ea5e9" |} ];
                 favoriteNames := []; activeTeamNames := [];
                 newTeamName := "" |}
              eq_refl)
    as (team & c & Ht & Hn & Hp & Hs & Hc & Hi & _).
  exists team, c. cbn [teams] in Ht. auto 10.
Defined.

(* ------------------------------------------------------------------ *)
(** ** The saved teams stay well formed *)

Lemma NoDup_snoc {A : Type} (l : list A) (x : A) :
  NoDup l -> ~ In x l -> NoDup (l ++ [x]).
Proof.
  intros Hl Hx. apply NoDup_app; [assumption | repeat constructor; auto |].
  intros y Hy [<-|[]]. contradiction.
Qed.

Lemma NoDup_map_filter {A B : Type} (f : A -> B) (keep : A -> bool)
    (l : list A) :
  NoDup (map f l) -> NoDup (map f (filter keep l)).
Proof.
  induction l as [|a l IH]; simpl; intros H; [constructor|].
  inversion H as [|? ? Hn Hl]; subst.
  destruct (keep a); simpl; [|now apply IH].
  constructor; [|now apply IH].
  intros Hin. apply Hn. apply in_map_iff in Hin as (b & E & Hb).
  apply filter_In in Hb as [Hb _]. apply in_map_iff. eauto.
Qed.

Lemma Forall_filter {A : Type} (P : A -> Prop) (keep : A -> bool)
    (l : list A) :
  Forall P l -> Forall P (filter keep l).
Proof.
  rewrite !Forall_forall. intros H x Hx.
  apply filter_In in Hx as [Hx _]. now apply H.
Qed.

Lemma initial_ok : SelectionOk initialSelection.
Proof.
  unfold SelectionOk, initialSelection. simpl.
  repeat split; try constructor. intros x [].
Qed.

Lemma create_ok (sel sel' : Selection) :
  SelectionOk sel -> handleCreateTeam sel = Updated sel' -> SelectionOk sel'.
Proof.
  intros (Hn & Hf & Hfav & Hact & Hincl) H.
  apply created_team in H as (Hne & Hname & Hfresh & c & _ & Hc & ->).
  unfold SelectionOk. cbn [teams favoriteNames activeTeamNames].
  rewrite !map_app. cbn [map Team.name].
  repeat split.
  - now apply NoDup_snoc.
  - apply Forall_app. split; [assumption|]. constructor; [|constructor].
    unfold TeamOk. cbn [Team.name Team.players Team.color].
    pose proof (sortBy_perm String.leb (favoriteNames sel)) as Hp.
    repeat split.
    + assumption.
    + apply trim_idem.
    + intros E. unfold sortStrings in E. rewrite E in Hp.
      apply Permutation_nil in Hp. contradiction.
    + eapply Permutation_NoDup; [symmetry; exact Hp | assumption].
    + apply sortBy_Sorted, String.leb_total.
    + eauto.
  - constructor.
  - assumption.
  - now apply incl_appl.
Qed.

Lemma delete_ok (n : string) (sel : Selection) :
  SelectionOk sel -> SelectionOk (handleDeleteTeam n sel).
Proof.
  intros (Hn & Hf & Hfav & Hact & Hincl).
  unfold SelectionOk, handleDeleteTeam.
  cbn [teams favoriteNames activeTeamNames].
  repeat split.
  - now apply NoDup_map_filter.
  - now apply Forall_filter.
  - assumption.
  - now apply NoDup_filter.
  - intros a Ha. apply filter_In in Ha as [Ha Hne].
    apply Hincl in Ha. apply in_map_iff in Ha as (t & <- & Ht).
    apply in_map_iff. exists t. split; [reflexivity|].
    apply filter_In. now split.
Qed.

Lemma toggle_team_ok (n : string) (sel : Selection) :
  In n (map Team.name (teams sel)) ->
  SelectionOk sel -> SelectionOk (handleToggleTeam n sel).
Proof.
  intros Hin (Hn & Hf & Hfav & Hact & Hincl).
  unfold SelectionOk, handleToggleTeam.
  cbn [teams favoriteNames activeTeamNames].
  repeat split; try assumption.
  - apply toggled_NoDup.
  - intros a Ha. apply toggled_In in Ha as [[Ha _]|[-> _]];
      [now apply Hincl | assumption].
Qed.

Lemma toggle_favorite_ok (n : string) (sel : Selection) :
  SelectionOk sel -> SelectionOk (handleToggleFavorite n sel).
Proof.
  intros (Hn & Hf & Hfav & Hact & Hincl).
  unfold SelectionOk, handleToggleFavorite.
  cbn [teams favoriteNames activeTeamNames].
  repeat split; try assumption. apply toggled_NoDup.
Qed.

Lemma react_ok (sel : Selection) (e : Event) :
  offered sel e -> SelectionOk sel -> SelectionOk (react sel e).
Proof.
  intros Ho Hs. destruct e as [v| |n|n|n]; cbn [react].
  - exact Hs.
  - destruct (handleCreateTeam sel) eqn:E; [assumption|].
    now apply (create_ok sel).
  - now apply delete_ok.
  - now apply toggle_team_ok.
  - now apply toggle_favorite_ok.
Qed.

(** X14. Starting from no team, no favourite and no active team, whatever
    the user types, submits, deletes and toggles (delete and toggle being
    offered for the saved teams only): the names of the saved teams differ
    even when case is ignored; every saved team has a non-empty trimmed
    name, at least one player, its players sorted and without repetition,
    and a colour of the palette; favourites and active teams hold no name
    twice; and every active team is a saved team. *)
Theorem selection_stays_ok (sel : Selection) :
  Reachable sel -> SelectionOk sel.
Proof.
  induction 1 as [|sel e _ IH Ho]; [exact initial_ok|].
  now apply react_ok.
Qed.

Lemma selection_stays_ok_witness :
  SelectionOk
    (react (react (react initialSelection (ToggleFavorite "Josh Allen"))
                  (TypeTeamName " Bills "))
           SubmitTeam).
Proof.
  apply selection_stays_ok.
  repeat (apply ReachStep; [|exact I]). apply ReachInitial.
Defined.

(** X15. Deleting a team that is offered for deletion removes exactly the
    teams of that name and that name from the active teams; a team of the
    same name can be saved again afterwards, since no saved name is left
    that equals it when case is ignored. *)
Theorem delete_frees_name (n : string) (sel : Selection) :
  SelectionOk sel ->
  In n (map Team.name (teams sel)) ->
  ~ In n (map Team.name (teams (handleDeleteTeam n sel)))
  /\ ~ In n (activeTeamNames (handleDeleteTeam n sel))
  /\ ~ In (toLowerCase n)
          (map (fun t => toLowerCase (Team.name t))
               (teams (handleDeleteTeam n sel)))
  /\ (forall t, In t (teams sel) -> Team.name t <> n ->
                In t (teams (handleDeleteTeam n sel))).
Proof.
  intros (Hn & _) Hin. cbn [teams activeTeamNames handleDeleteTeam].
  repeat split.
  - intros H. apply in_map_iff in H as (t & E & Ht).
    apply filter_In in Ht as [_ Ht]. rewrite E, String.eqb_refl in Ht.
    discriminate.
  - intros H. apply filter_In in H as [_ H].
    rewrite String.eqb_refl in H. discriminate.
  - apply in_map_iff in Hin as (t0 & <- & Ht0).
    intros H. apply in_map_iff in H as (t & E & Ht).
    apply filter_In in Ht as [Ht Hne].
    assert (t = t0).
    { clear Hne. revert Hn Ht Ht0 E.
      generalize (teams sel) as l. induction l as [|a l IH]; [intros _ []|].
      cbn [map]. intros Hnd [->|Ht] [->|Ht0] E; try reflexivity.
      - inversion Hnd as [|? ? Hx _]; subst. exfalso. apply Hx.
        rewrite E. apply in_map_iff. eauto.
      - inversion Hnd as [|? ? Hx _]; subst. exfalso. apply Hx.
        rewrite <- E. apply in_map_iff. eauto.
      - inversion Hnd; subst. now apply IH. }
    subst t0. rewrite String.eqb_refl in Hne. discriminate.
  - intros t Ht Hne. apply filter_In. split; [assumption|].
    now destruct (String.eqb_spec (Team.name t) n).
Qed.

Lemma delete_frees_name_witness :
  ~ In "Bills"
      (map Team.name
           (teams (handleDeleteTeam "Bills"
              (react (react (react initialSelection
                                   (ToggleFavorite "Josh Allen"))
                            (TypeTeamName " Bills "))
                     SubmitTeam)))).
Proof.
  apply (delete_frees_name "Bills").
  - apply react_ok; [exact I|]. apply react_ok; [exact I|].
    apply react_ok; [exact I|]. exact initial_ok.
  - left. reflexivity.
Defined.

(* ------------------------------------------------------------------ *)
(** ** What is shown *)

Lemma activePlayers_In (ts : list Team.t) (acc : list string) (y : string) :
  In y (fold_left
          (fun playerSet team =>
             fold_left setAdd (Team.players team) playerSet) ts acc)
  <-> In y acc \/ exists t, In t ts /\ In y (Team.players t).
Proof.
  revert acc. induction ts as [|t ts IH]; intros acc; cbn [fold_left].
  - split; [auto | intros [H|(t & [] & _)]; exact H].
  - rewrite IH, addAll_In. split.
    + intros [[H|H]|(t' & Ht' & Hy)]; eauto.
      * right. exists t. split; [now left | assumption].
      * right. exists t'. split; [now right | assumption].
    + intros [H|(t' & [<-|Ht'] & Hy)]; eauto.
Qed.

Lemma activeTeamPlayerNames_In (sel : Selection) (y : string) :
  In y (activeTeamPlayerNames sel)
  <-> exists t, In t (teams sel)
                /\ In (Team.name t) (activeTeamNames sel)
                /\ In y (Team.players t).
Proof.
  unfold activeTeamPlayerNames, activeTeams. rewrite activePlayers_In.
  split.
  - intros [[]|(t & Ht & Hy)]. apply filter_In in Ht as [Ht Ha].
    apply setHas_In in Ha. eauto.
  - intros (t & Ht & Ha & Hy). right. exists t. split; [|assumption].
    apply filter_In. split; [assumption|]. now apply setHas_In.
Qed.

(** X16. With "hide others" off every parsed player is kept.  With it on,
    a player is kept exactly when the player's name is a favourite or is
    among the players of a saved team that is active; the players kept
    stay in their order. *)
Theorem filtered_players_spec (players : list Player) (sel : Selection) :
  filteredPlayers players false sel = players
  /\ (forall p,
        In p (filteredPlayers players true sel)
        <-> In p players
            /\ (In (name p) (favoriteNames sel)
                \/ exists t, In t (teams sel)
                             /\ In (Team.name t) (activeTeamNames sel)
                             /\ In (name p) (Team.players t)))
  /\ (exists keep, filteredPlayers players true sel = filter keep players).
Proof.
  split; [reflexivity|]. split; [|eexists; reflexivity].
  intros p. unfold filteredPlayers. cbn [negb]. cbv iota zeta.
  rewrite filter_In, orb_true_iff, !setHas_In, newSet_In,
    activeTeamPlayerNames_In.
  reflexivity.
Qed.

(* ------------------------------------------------------------------ *)
(** ** Grouping by position *)

Lemma lookup_assign {V : Type} (g : list (string * V)) (k k' : string)
    (v : V) :
  lookup (assign g k v) k'
  = if String.eqb k k' then Some v else lookup g k'.
Proof.
  induction g as [|[k0 v0] g IH]; cbn [assign lookup].
  - reflexivity.
  - destruct (String.eqb_spec k0 k) as [->|Hne]; cbn [lookup].
    + now destruct (String.eqb k k').
    + rewrite IH. destruct (String.eqb_spec k0 k') as [->|]; [|reflexivity].
      destruct (String.eqb_spec k k'); [congruence | reflexivity].
Qed.

Lemma group_fold (l : list Player) :
  forall (g : Grouped) (pos : string),
    lookup
      (fold_left
         (fun g player =>
            let upperPos := toUpperCase (position player) in
            match lookup g upperPos with
            | Some group => assign g upperPos (group ++ [player])%list
            | None => g
            end) l g) pos
    = match lookup g pos with
      | Some group =>
          Some (group
                ++ filter (fun p => String.eqb (toUpperCase (position p)) pos)
                          l)%list
      | None => None
      end.
Proof.
  induction l as [|p l IH]; intros g pos; cbn [fold_left filter].
  - destruct (lookup g pos); [now rewrite app_nil_r | reflexivity].
  - rewrite IH. cbv zeta.
    destruct (String.eqb_spec (toUpperCase (position p)) pos) as [E|Hne].
    + rewrite E. destruct (lookup g pos) as [grp|] eqn:L.
      * rewrite lookup_assign, String.eqb_refl.
        now rewrite <- app_assoc.
      * now rewrite L.
    + destruct (lookup g (toUpperCase (position p))) as [grp|] eqn:L;
        [|reflexivity].
      rewrite lookup_assign.
      destruct (String.eqb_spec (toUpperCase (position p)) pos);
        [contradiction | reflexivity].
Qed.

Lemma initial_groups (pos : string) :
  lookup (fold_left (fun (g : Grouped) pos => assign g pos [])
                    POSITIONS_TO_DISPLAY [])
         pos
  = if setHas POSITIONS_TO_DISPLAY pos then Some [] else None.
Proof.
  assert (E : fold_left (fun (g : Grouped) pos => assign g pos [])
                        POSITIONS_TO_DISPLAY []
              = [("QB", []); ("RB", []); ("WR", []); ("TE", []); ("K", []);
                 ("DST", [])]) by reflexivity.
  rewrite E. unfold setHas, POSITIONS_TO_DISPLAY. cbn [lookup existsb].
  rewrite !(String.eqb_sym pos).
  repeat match goal with
         | |- context [String.eqb ?a pos] => destruct (String.eqb a pos)
         end; reflexivity.
Qed.

Lemma displayed_eq (filtered : list Player) (pos : string) :
  displayed filtered pos
  = if setHas POSITIONS_TO_DISPLAY pos
    then filter (fun p => String.eqb (toUpperCase (position p)) pos)
                (sortBy byRank filtered)
    else [].
Proof.
  unfold displayed, playersByPosition. rewrite group_fold, initial_groups.
  now destruct (setHas POSITIONS_TO_DISPLAY pos).
Qed.





(* ------------------------------------------------------------------ *)
(** ** From the text to the tables *)

Lemma flat_map_nil {A B : Type} (keys : list A) :
  flat_map (fun _ : A => @nil B) keys = [].
Proof. induction keys; simpl; auto. Qed.

Lemma flat_map_split {A B : Type} (g h : A -> list B) (keys : list A) :
  Permutation (flat_map (fun k => g k ++ h k)%list keys)
              (flat_map g keys ++ flat_map h keys).
Proof.
  induction keys as [|k keys IH]; simpl; [reflexivity|].
  rewrite IH, <- !app_assoc. apply Permutation_app_head.
  rewrite !app_assoc. apply Permutation_app_tail, Permutation_app_comm.
Qed.

Lemma flat_map_one {B : Type} (keys : list string) (k : string) (x : B) :
  NoDup keys -> In k keys ->
  flat_map (fun k' => if String.eqb k k' then [x] else []) keys = [x].
Proof.
  induction keys as [|a keys IH]; intros Hnd Hin; [destruct Hin|].
  inversion Hnd as [|? ? Ha Hk]; subst. cbn [flat_map].
  destruct (String.eqb_spec k a) as [->|Hne].
  - cbn [app]. f_equal.
    clear IH Hin Hnd. induction keys as [|b keys IH]; [reflexivity|].
    cbn [flat_map]. destruct (String.eqb_spec a b) as [->|].
    + exfalso. apply Ha. now left.
    + apply IH; [intros H; apply Ha; now right | now inversion Hk].
  - destruct Hin as [->|Hin]; [congruence|]. now apply IH.
Qed.

(** Filtering by each key of a list of distinct keys splits a list whose
    elements all have a key of that list. *)
Lemma partition_by_key {B : Type} (key : B -> string) (keys : list string)
    (l : list B) :
  NoDup keys -> Forall (fun p => In (key p) keys) l ->
  Permutation
    (flat_map (fun k => filter (fun p => String.eqb (key p) k) l) keys) l.
Proof.
  intros Hnd Hall. induction Hall as [|p l Hp _ IH]; cbn [filter].
  - now rewrite flat_map_nil.
  - transitivity
      (flat_map (fun k => if String.eqb (key p) k then [p] else []) keys
       ++ flat_map (fun k => filter (fun q => String.eqb (key q) k) l) keys)%list.
    + rewrite <- flat_map_split.
      assert (E : forall k,
                 (if String.eqb (key p) k
                  then p :: filter (fun q => String.eqb (key q) k) l
                  else filter (fun q => String.eqb (key q) k) l)
                 = ((if String.eqb (key p) k then [p] else [])
                    ++ filter (fun q => String.eqb (key q) k) l)%list).
      { intros k. now destruct (String.eqb (key p) k). }
      erewrite flat_map_ext; [reflexivity|]. exact E.
    + rewrite (flat_map_one keys (key p) p Hnd Hp). now constructor.
Qed.

Lemma flat_map_agree {A B : Type} (f g : A -> list B) (l : list A) :
  (forall a, In a l -> f a = g a) -> flat_map f l = flat_map g l.
Proof.
  induction l as [|a l IH]; intros H; simpl; [reflexivity|].
  rewrite (H a (or_introl eq_refl)), IH; [reflexivity|].
  intros b Hb. apply H. now right.
Qed.

Lemma position_code_upper (pos : string) :
  In pos POSITION_CODES ->
  toUpperCase pos = pos /\ In pos POSITIONS_TO_DISPLAY.
Proof.
  unfold POSITION_CODES, POSITIONS_TO_DISPLAY. intros H. simpl in H.
  decompose [or] H; try contradiction; subst pos;
    (split; [reflexivity | simpl; tauto]).
Qed.

Lemma displayed_positions_NoDup : NoDup POSITIONS_TO_DISPLAY.
Proof.
  unfold POSITIONS_TO_DISPLAY.
  repeat (constructor; [simpl; intuition discriminate|]). constructor.
Qed.

Lemma displayed_all (out : list Player) :
  Forall (fun p => In (position p) POSITION_CODES) out ->
  Permutation (flat_map (displayed out) POSITIONS_TO_DISPLAY) out.
Proof.
  intros Hall.
  assert (Hs : Forall (fun p => In (toUpperCase (position p))
                                   POSITIONS_TO_DISPLAY)
                      (sortBy byRank out)).
  { rewrite Forall_forall in *. intros p Hp.
    apply (Permutation_in _ (sortBy_perm byRank out)) in Hp.
    destruct (position_code_upper _ (Hall p Hp)) as [-> ?]. assumption. }
  assert (E : flat_map (displayed out) POSITIONS_TO_DISPLAY
              = flat_map
                  (fun k => filter (fun p => String.eqb
                                               (toUpperCase (position p)) k)
                                   (sortBy byRank out))
                  POSITIONS_TO_DISPLAY).
  { apply flat_map_agree. intros k Hk.
    rewrite displayed_eq. apply setHas_In in Hk. now rewrite Hk. }
  rewrite E.
  etransitivity;
    [exact (partition_by_key (fun p => toUpperCase (position p))
              POSITIONS_TO_DISPLAY (sortBy byRank out)
              displayed_positions_NoDup Hs)
    | apply sortBy_perm].
Qed.

(** X18. With "hide others" off, every record that either parser returns
    is shown in one of the six tables and none is shown twice: the tables
    taken together hold the records of the output, each record in the
    table of its position. *)
Theorem parsed_records_all_displayed (text : string) (out : list Player)
    (sel : Selection) :
  TeamAware.parseRankingsFromText text = Resolved out
  \/ Basic.parseRankingsFromText text = Resolved out ->
  Permutation
    (flat_map (displayed (filteredPlayers out false sel))
              POSITIONS_TO_DISPLAY)
    out
  /\ forall p, In p out -> In p (displayed out (position p)).
Proof.
  intros H.
  assert (Hall : Forall (fun p => In (position p) POSITION_CODES) out).
  { apply Forall_forall. intros p Hp. destruct H as [H|H].
    - rewrite aware_parse_spec in H. injection H as <-.
      apply emitted_In in Hp as (line & _ & Hp).
      now apply aware_parseLine_built in Hp as (_ & ? & _).
    - rewrite basic_parse_spec in H. injection H as <-.
      apply emitted_In in Hp as (line & _ & Hp).
      apply basic_parseLine_layout in Hp
        as (r & rk & names & pos & after & info & _ & _ & _ & Ex & _ & ->).
      now apply extract_built in Ex as [? _]. }
  split; [now apply displayed_all|].
  intros p Hp. rewrite Forall_forall in Hall.
  destruct (position_code_upper _ (Hall p Hp)) as [Hu Hd].
  rewrite displayed_eq. apply setHas_In in Hd. rewrite Hd.
  apply filter_In. split.
  - eapply Permutation_in; [symmetry; apply sortBy_perm | exact Hp].
  - rewrite Hu. apply String.eqb_refl.
Qed.

Lemma parsed_records_all_displayed_witness :
  Permutation
    (flat_map (displayed (filteredPlayers [mahomes] false initialSelection))
              POSITIONS_TO_DISPLAY)
    [mahomes]
  /\ forall p, In p [mahomes] -> In p (displayed [mahomes] (position p)).
Proof.
  apply (parsed_records_all_displayed "5 Patrick Mahomes KC QB1").
  left. reflexivity.
Defined.

(** X19. Submitting a text never leaves an error message and never leaves
    the loading flag up: with either parser the promise resolves, so the
    state after [handleSubmitRankings] holds the records of the lines of
    the text, in line order, and no error. *)
Theorem submit_never_fails (text : string) :
  handleSubmitRankings TeamAware.parseRankingsFromText text
  = {| players :=
         flat_map (emitted TeamAware.parseLine) (split sepNewline text);
       isLoading := false; error := None |}
  /\ handleSubmitRankings Basic.parseRankingsFromText text
     = {| players :=
            flat_map (emitted Basic.parseLine) (split sepNewline text);
          isLoading := false; error := None |}.
Proof.
  unfold handleSubmitRankings.
  now rewrite aware_parse_spec, basic_parse_spec.
Qed.

(* ------------------------------------------------------------------ *)
(** ** Highlight colours *)

Lemma pushed_cons {C : Type} (before : option (list C)) (c : C)
    (extra : list C) :
  pushed (Some (match before with
                | Some colors => colors
                | None => []
                end ++ [c])%list) extra
  = pushed before (c :: extra).
Proof.
  unfold pushed. destruct extra as [|d extra]; [reflexivity|].
  now rewrite <- app_assoc.
Qed.

Lemma pushed_app {C : Type} (before : option (list C)) (a b : list C) :
  pushed (pushed before a) b = pushed before (a ++ b).
Proof.
  unfold pushed. destruct a as [|x a]; [reflexivity|].
  destruct b as [|y b]; [now rewrite app_nil_r|].
  cbn [app]. now rewrite <- app_assoc.
Qed.

Lemma addColor_plain (m : ColorMap) (n : string) (c : option string) :
  setHas OBJECT_PROTOTYPE n = false ->
  addColor m n c
  = Ret (assign m n (match lookup m n with
                     | Some colors => colors
                     | None => []
                     end ++ [c])%list).
Proof.
  intros H. unfold addColor. rewrite H. now destruct (lookup m n).
Qed.

Lemma forPlayers_plain (names : list string) (c : option string) :
  forallb (fun n => negb (setHas OBJECT_PROTOTYPE n)) names = true ->
  forall m,
  exists m',
    forPlayers m names c = Ret m'
    /\ forall k,
         lookup m' k
         = pushed (lookup m k)
                  (map (fun _ => c) (filter (String.eqb k) names)).
Proof.
  induction names as [|n names IH]; cbn [forallb forPlayers]; intros H m.
  - exists m. split; [reflexivity|]. intros k. reflexivity.
  - apply andb_prop in H as [Hn H]. apply negb_true_iff in Hn.
    rewrite (addColor_plain _ _ _ Hn). cbn [bind].
    destruct (IH H (assign m n (match lookup m n with
                                | Some colors => colors
                                | None => []
                                end ++ [c])%list)) as (m' & E & L).
    exists m'. split; [exact E|]. intros k. rewrite L, lookup_assign.
    cbn [filter]. rewrite (String.eqb_sym k n).
    destruct (String.eqb_spec n k) as [->|]; [|reflexivity].
    cbn [map]. apply pushed_cons.
Qed.

Lemma forTeams_plain (ts : list Team.t) :
  plainNames ts = true ->
  forall m,
  exists m',
    forTeams m ts = Ret m'
    /\ forall k, lookup m' k = pushed (lookup m k) (colorsOf k ts).
Proof.
  unfold plainNames, colorsOf.
  induction ts as [|t ts IH]; cbn [forallb forTeams flat_map]; intros H m.
  - exists m. split; [reflexivity|]. intros k. reflexivity.
  - apply andb_prop in H as [Ht H].
    destruct (forPlayers_plain _ (Team.color t) Ht m) as (m1 & E1 & L1).
    rewrite E1. cbn [bind].
    destruct (IH H m1) as (m' & E & L).
    exists m'. split; [exact E|]. intros k.
    now rewrite L, L1, pushed_app.
Qed.

(** No own property of the map bears an inherited name. *)
Lemma forPlayers_throws (names : list string) (c : option string) :
  forallb (fun n => negb (setHas OBJECT_PROTOTYPE n)) names = false ->
  forall m,
    (forall k, In k OBJECT_PROTOTYPE -> lookup m k = None) ->
    forPlayers m names c = Throw "TypeError".
Proof.
  induction names as [|n names IH]; cbn [forallb forPlayers];
    [discriminate|].
  intros H m Inv. destruct (setHas OBJECT_PROTOTYPE n) eqn:Hn.
  - unfold addColor. apply setHas_In in Hn as Hin.
    now rewrite (Inv n Hin), Hn.
  - cbn [negb andb] in H. rewrite (addColor_plain _ _ _ Hn). cbn [bind].
    apply IH; [assumption|]. intros k Hk. rewrite lookup_assign.
    destruct (String.eqb_spec n k) as [->|]; [|now apply Inv].
    apply setHas_false in Hn. contradiction.
Qed.

Lemma forTeams_throws (ts : list Team.t) :
  plainNames ts = false ->
  forall m,
    (forall k, In k OBJECT_PROTOTYPE -> lookup m k = None) ->
    forTeams m ts = Throw "TypeError".
Proof.
  unfold plainNames.
  induction ts as [|t ts IH]; cbn [forallb forTeams]; [discriminate|].
  intros H m Inv.
  destruct (forallb (fun n => negb (setHas OBJECT_PROTOTYPE n))
                    (Team.players t)) eqn:Ht.
  - cbn [andb] in H.
    destruct (forPlayers_plain _ (Team.color t) Ht m) as (m1 & E1 & L1).
    rewrite E1. cbn [bind]. apply IH; [assumption|].
    intros k Hk. rewrite L1, (Inv k Hk).
    assert (F : filter (String.eqb k) (Team.players t) = []).
    { clear -Ht Hk. induction (Team.players t) as [|n l IHl];
        [reflexivity|].
      cbn [forallb filter] in *. apply andb_prop in Ht as [Hn Hl].
      apply negb_true_iff, setHas_false in Hn.
      destruct (String.eqb_spec k n) as [->|]; [contradiction|].
      now apply IHl. }
    now rewrite F.
  - now rewrite (forPlayers_throws _ _ Ht m Inv).
Qed.

Lemma colorsOf_nil (n : string) (ts : list Team.t) :
  colorsOf n ts = [] <-> ~ exists t, In t ts /\ In n (Team.players t).
Proof.
  unfold colorsOf. induction ts as [|t ts IH]; cbn [flat_map].
  - split; [intros _ (t & [] & _) | reflexivity].
  - split.
    + intros E. apply app_eq_nil in E as [Et E]. apply IH in E.
      intros (t' & [<-|Ht'] & Hn); [|apply E; eauto].
      apply map_eq_nil in Et.
      assert (X : In n (filter (String.eqb n) (Team.players t))).
      { apply filter_In. split; [assumption | apply String.eqb_refl]. }
      rewrite Et in X. destruct X.
    + intros H.
      assert (Et : filter (String.eqb n) (Team.players t) = []).
      { destruct (filter (String.eqb n) (Team.players t)) as [|x l] eqn:F;
          [reflexivity|].
        exfalso. apply H. exists t. split; [now left|].
        assert (X : In x (filter (String.eqb n) (Team.players t)))
          by (rewrite F; now left).
        apply filter_In in X as [X E]. apply String.eqb_eq in E.
        now subst. }
      rewrite Et. cbn [map app]. apply IH.
      intros (t' & Ht' & Hn). apply H. exists t'. split; [now right|assumption].
Qed.

(** X20. [playerHighlightColors] gives every player of an active team the
    colours of the active teams that list the player, in the order of the
    saved teams, and gives other names nothing, provided no player of an
    active team is named like a member of [Object.prototype]
    ("constructor", "toString", ...).  When one is, the computation throws
    a TypeError instead of returning a map. *)
Theorem highlight_colors_spec (sel : Selection) :
  (plainNames (activeTeams sel) = true ->
   exists m,
     playerHighlightColors sel = Ret m
     /\ forall n,
          lookup m n = match colorsOf n (activeTeams sel) with
                       | [] => None
                       | colors => Some colors
                       end)
  /\ (plainNames (activeTeams sel) = false ->
      playerHighlightColors sel = Throw "TypeError").
Proof.
  unfold playerHighlightColors. split; intros H.
  - destruct (forTeams_plain _ H []) as (m & E & L).
    exists m. split; [exact E|]. intros n. rewrite L.
    cbn [lookup]. unfold pushed.
    now destruct (colorsOf n (activeTeams sel)).
  - apply forTeams_throws; [assumption | reflexivity].
Qed.

Lemma highlight_colors_spec_witness :
  playerHighlightColors
    {| teams := [ {| Team.name := "Mine";
                     Team.players := ["Josh Allen"; "constructor"];
                     Team.color := Some "#0ea5e9" |} ];
       favoriteNames := []; activeTeamNames := ["Mine"];
       newTeamName := "" |}
  = Throw "TypeError".
Proof.
  apply (proj2 (highlight_colors_spec _)). reflexivity.
Defined.

(** X21. When [playerHighlightColors] returns a map, the names that have
    colours in it are exactly the names of [activeTeamPlayerNames]: a
    player is highlighted exactly when "hide others" would keep the
    player for being on an active team. *)
Theorem highlighted_iff_on_active_team (sel : Selection) (m : ColorMap)
    (n : string) :
  playerHighlightColors sel = Ret m ->
  (lookup m n <> None <-> In n (activeTeamPlayerNames sel)).
Proof.
  intros E.
  destruct (plainNames (activeTeams sel)) eqn:P.
  - destruct (forTeams_plain _ P []) as (m' & E' & L).
    unfold playerHighlightColors in E. rewrite E' in E. injection E as ->.
    rewrite L. cbn [lookup]. unfold pushed.
    rewrite activeTeamPlayerNames_In.
    pose proof (colorsOf_nil n (activeTeams sel)) as N.
    assert (A : (exists t, In t (activeTeams sel) /\ In n (Team.players t))
                <-> exists t, In t (teams sel)
                              /\ In (Team.name t) (activeTeamNames sel)
                              /\ In n (Team.players t)).
    { unfold activeTeams. split.
      - intros (t & Ht & Hn). apply filter_In in Ht as [Ht Ha].
        apply setHas_In in Ha. eauto.
      - intros (t & Ht & Ha & Hn). exists t. split; [|assumption].
        apply filter_In. split; [assumption | now apply setHas_In]. }
    rewrite <- A.
    destruct (colorsOf n (activeTeams sel)) as [|c cs] eqn:C.
    + split; [congruence|]. intros H. exfalso. now apply (proj1 N).
    + split; [|discriminate]. intros _.
      assert (X : In c (colorsOf n (activeTeams sel)))
        by (rewrite C; now left).
      unfold colorsOf in X. apply in_flat_map in X as (t & Ht & X).
      apply in_map_iff in X as (x & _ & X).
      apply filter_In in X as [X Ex]. apply String.eqb_eq in Ex. subst x.
      eauto.
  - unfold playerHighlightColors in E.
    rewrite (forTeams_throws _ P [] ltac:(reflexivity)) in E. discriminate.
Qed.

Lemma highlighted_iff_on_active_team_witness :
  lookup [("Josh Allen", [Some "#0ea5e9"])] "Josh Allen" <> None
  <-> In "Josh Allen"
         (activeTeamPlayerNames
            {| teams := [ {| Team.name := "Mine";
                             Team.players := ["Josh Allen"];
                             Team.color := Some "#0ea5e9" |} ];
               favoriteNames := []; activeTeamNames := ["Mine"];
               newTeamName := "" |}).
Proof.
  apply (highlighted_iff_on_active_team
           {| teams := [ {| Team.name := "Mine";
                            Team.players := ["Josh Allen"];
                            Team.color := Some "#0ea5e9" |} ];
              favoriteNames := []; activeTeamNames := ["Mine"];
              newTeamName := "" |}).
  reflexivity.
Defined.

(* ------------------------------------------------------------------ *)
(** ** Reading the rank token *)

Lemma parseInt_unsigned (c : ascii) (r : string) :
  isDigit c = true ->
  parseInt (String c r)
  = match takeDigits (String c r) with
    | "" => None
    | ds => Some (decimal ds)
    end.
Proof.
  intros Hc. unfold parseInt. simpl trimStart.
  rewrite (digit_not_space _ Hc).
  destruct (digit_not_sign _ Hc) as [Hm Hp].
  assert (E : (let '(sign, body) :=
                 match String c r with
                 | String "-" r0 => (-1, r0)
                 | String "+" r0 => (1, r0)
                 | _ => (1, String c r)
                 end in
               match takeDigits body with
               | "" => None
               | ds => Some (sign * decimal ds)
               end)
              = match takeDigits (String c r) with
                | "" => None
                | ds => Some (1 * decimal ds)
                end).
  { clear -Hm Hp. ascii_cases c; try reflexivity; congruence. }
  rewrite E. destruct (takeDigits (String c r)); [reflexivity|].
  now rewrite Z.mul_1_l.
Qed.

Lemma takeDigits_prefix (ds rest : string) :
  allDigits ds = true ->
  (rest = "" \/ exists c r, rest = String c r /\ isDigit c = false) ->
  takeDigits (ds ++ rest) = ds.
Proof.
  unfold allDigits. intros Hd Hr.
  induction ds as [|d ds IH]; cbn [append].
  - destruct Hr as [->|(c & r & -> & Hc)]; [reflexivity|].
    cbn [takeDigits]. now rewrite Hc.
  - cbn [forallb_str] in Hd. apply andb_prop in Hd as [Hd1 Hd2].
    cbn [takeDigits]. now rewrite Hd1, IH.
Qed.

Lemma strip_append (ds rest : string) :
  rest <> "" -> stripRankSuffix (ds ++ rest) = ds ++ stripRankSuffix rest.
Proof.
  intros Hr. induction ds as [|d ds IH]; [reflexivity|].
  cbn [append]. rewrite <- IH.
  destruct (ds ++ rest) as [|x y] eqn:E; [|reflexivity].
  destruct ds; [cbn [append] in E; congruence | discriminate].
Qed.

Lemma strip_digits (ds : string) :
  allDigits ds = true -> stripRankSuffix ds = ds.
Proof.
  unfold allDigits. induction ds as [|d ds IH]; [reflexivity|].
  cbn [forallb_str]. intros H. apply andb_prop in H as [Hd Hds].
  destruct ds as [|e ds].
  - cbn [stripRankSuffix]. revert Hd.
    ascii_cases d; vm_compute; congruence.
  - change (stripRankSuffix (String d (String e ds)))
      with (String d (stripRankSuffix (String e ds))).
    now rewrite IH.
Qed.

Lemma strip_keeps_head (c : ascii) (r : string) :
  isDigit c = false ->
  stripRankSuffix (String c r) = ""
  \/ exists r', stripRankSuffix (String c r) = String c r'.
Proof.
  intros _. destruct r as [|e r].
  - cbn [stripRankSuffix].
    destruct (Ascii.eqb c "." || Ascii.eqb c ")")%bool; eauto.
  - right. eexists. reflexivity.
Qed.

Lemma decimalFrom_snoc (ds : string) (d : ascii) :
  forall acc,
    decimalFrom acc (ds ++ String d "")
    = 10 * decimalFrom acc ds + digitValue d.
Proof.
  induction ds as [|c ds IH]; intros acc; cbn [append decimalFrom];
    [reflexivity|].
  apply IH.
Qed.

(** X22. The rank is read from the digits that open the first token: when
    the token is a non-empty run of digits followed by nothing or by
    something that starts with a non-digit ("12", "12.", "12)", "12th",
    "12.5"), and the decimal value of the run is at most 2^53, the rank is
    that value; with a "-" in front it is the opposite.  A token that
    opens with a character other than a digit, a sign or white space has
    no rank. *)
Theorem rank_token_reading :
  (forall ds rest,
      allDigits ds = true -> ds <> "" ->
      (rest = "" \/ exists c r, rest = String c r /\ isDigit c = false) ->
      decimal ds <= MAX_EXACT_INTEGER ->
      parseInt (stripRankSuffix (ds ++ rest)) = Some (decimal ds)
      /\ parseInt (stripRankSuffix ("-" ++ ds ++ rest)) = Some (- decimal ds)
      /\ 0 <= decimal ds)
  /\ (forall c r,
        isDigit c = false -> isSpace c = false ->
        c <> "-"%char -> c <> "+"%char ->
        parseInt (stripRankSuffix (String c r)) = None)
  /\ (forall ds d,
        decimal (ds ++ String d "") = 10 * decimal ds + digitValue d).
Proof.
  split; [|split].
  - intros ds rest Hd Hne Hr _.
    assert (S : exists rest',
               stripRankSuffix (ds ++ rest) = ds ++ rest'
               /\ (rest' = ""
                   \/ exists c r, rest' = String c r /\ isDigit c = false)).
    { destruct Hr as [->|(c & r & -> & Hc)].
      - exists "". split; [|now left].
        assert (A : forall s, s ++ "" = s)
          by (induction s as [|x s IHs]; simpl; congruence).
        now rewrite !A, strip_digits.
      - rewrite strip_append by discriminate.
        destruct (strip_keeps_head c r Hc) as [->|(r' & ->)];
          eexists; split; eauto. }
    destruct S as (rest' & Es & Hr').
    assert (P : parseInt (ds ++ rest') = Some (decimal ds)).
    { destruct ds as [|d ds]; [congruence|]. cbn [append].
      pose proof Hd as Hd'. unfold allDigits in Hd'. cbn [forallb_str] in Hd'.
      apply andb_prop in Hd' as [Hd1 _].
      rewrite (parseInt_unsigned _ _ Hd1).
      change (String d (ds ++ rest')) with (String d ds ++ rest').
      now rewrite (takeDigits_prefix _ _ Hd Hr'). }
    split; [now rewrite Es|]. split; [|now apply decimalFrom_nonneg].
    change ("-" ++ ds ++ rest) with (String "-" (ds ++ rest)).
    assert (Em : stripRankSuffix (String "-" (ds ++ rest))
                 = String "-" (stripRankSuffix (ds ++ rest))).
    { destruct (ds ++ rest) as [|x y] eqn:E; [|reflexivity].
      destruct ds; [congruence | discriminate]. }
    rewrite Em, Es. unfold parseInt. cbn [trimStart].
    change (isSpace "-") with false. cbv iota.
    rewrite (takeDigits_prefix _ _ Hd Hr').
    destruct ds; [congruence|]. f_equal; lia.
  - intros c r Hd Hs Hm Hp.
    destruct (strip_keeps_head c r Hd) as [->|(r' & ->)]; [reflexivity|].
    unfold parseInt. cbn [trimStart]. rewrite Hs.
    assert (E : (let '(sign, body) :=
                   match String c r' with
                   | String "-" r0 => (-1, r0)
                   | String "+" r0 => (1, r0)
                   | _ => (1, String c r')
                   end in
                 match takeDigits body with
                 | "" => None
                 | ds => Some (sign * decimal ds)
                 end)
                = match takeDigits (String c r') with
                  | "" => None
                  | ds => Some (1 * decimal ds)
                  end).
    { clear -Hm Hp. ascii_cases c; try reflexivity; congruence. }
    rewrite E. cbn [takeDigits]. now rewrite Hd.
  - intros ds d. apply decimalFrom_snoc.
Qed.

Lemma rank_token_reading_witness :
  parseInt (stripRankSuffix ("12" ++ ".5")) = Some (decimal "12")
  /\ parseInt (stripRankSuffix ("-" ++ "12" ++ ".5")) = Some (- decimal "12")
  /\ 0 <= decimal "12".
Proof.
  apply (proj1 rank_token_reading "12" ".5");
    [reflexivity | discriminate | | vm_compute; discriminate].
  right. exists "."%char, "5". split; reflexivity.
Defined.

(* ------------------------------------------------------------------ *)
(** ** Tokenizing a line of words *)

Lemma append_nil_r (s : string) : s ++ "" = s.
Proof. induction s as [|c s IH]; simpl; congruence. Qed.

Lemma isWord_inv (w : string) :
  isWord w = true ->
  exists c r, w = String c r /\ isSpace c = false
              /\ forallb_str (fun c => negb (isSpace c)) r = true.
Proof.
  unfold isWord. destruct w as [|c r]; [discriminate|].
  cbn [isEmpty negb andb forallb_str]. intros H.
  apply andb_prop in H as [Hc Hr]. apply negb_true_iff in Hc. eauto.
Qed.

Lemma join_cons2 (w w2 : string) (ws : list string) :
  join (w :: w2 :: ws) = w ++ " " ++ join (w2 :: ws).
Proof. reflexivity. Qed.

Lemma join_head (w : string) (ws : list string) :
  exists rest, join (w :: ws) = w ++ rest
               /\ (rest = "" \/ exists r, rest = String " " r).
Proof.
  destruct ws as [|w2 ws].
  - exists "". split; [symmetry; apply append_nil_r | now left].
  - exists (" " ++ join (w2 :: ws)). split; [reflexivity|]. right.
    eexists. reflexivity.
Qed.

Lemma word_pieces (sepLen : string -> nat) (w s p : string)
    (ps : list string) :
  (forall c x, isSpace c = false -> sepLen (String c x) = 0%nat) ->
  forallb_str (fun c => negb (isSpace c)) w = true ->
  splitGo sepLen 0 s = p :: ps ->
  splitGo sepLen 0 (w ++ s) = (w ++ p) :: ps.
Proof.
  intros Hsep Hw Hs. induction w as [|c w IH]; [exact Hs|].
  cbn [forallb_str] in Hw. apply andb_prop in Hw as [Hc Hw].
  apply negb_true_iff in Hc.
  cbn [append splitGo]. rewrite (Hsep _ _ Hc), (IH Hw). reflexivity.
Qed.

Lemma sepSpaces_word : forall c x,
  isSpace c = false -> sepSpaces (String c x) = 0%nat.
Proof. intros c x H. cbn [sepSpaces]. now rewrite H. Qed.

Lemma sepMatchup_word : forall c x,
  isSpace c = false -> sepMatchup (String c x) = 0%nat.
Proof.
  intros c x H. unfold sepMatchup, startsWith. cbn [String.prefix].
  destruct (ascii_dec " " c) as [<-|]; [discriminate | reflexivity].
Qed.

Lemma split_spaces_words (ws : list string) :
  ws <> [] -> Forall (fun w => isWord w = true) ws ->
  split sepSpaces (join ws) = ws.
Proof.
  unfold split. intros Hne Hall. revert Hne.
  induction Hall as [|w ws Hw Hws IH]; intros Hne; [congruence|]. clear Hne.
  destruct (isWord_inv _ Hw) as (c & r & -> & Hc & Hr).
  assert (Hcr : forallb_str (fun c => negb (isSpace c)) (String c r) = true).
  { cbn [forallb_str]. now rewrite Hc, Hr. }
  destruct ws as [|w2 ws].
  - change (join [String c r]) with (String c r).
    rewrite <- (append_nil_r (String c r)) at 1.
    rewrite (word_pieces sepSpaces _ "" "" [] sepSpaces_word Hcr eq_refl).
    now rewrite append_nil_r.
  - rewrite join_cons2.
    inversion Hws as [|? ? Hw2 _]; subst.
    destruct (isWord_inv _ Hw2) as (c2 & r2 & E2 & Hc2 & _).
    assert (Hs : splitGo sepSpaces 0 (" " ++ join (w2 :: ws))
                 = "" :: w2 :: ws).
    { destruct (join_head w2 ws) as (rest & Ej & _).
      change (" " ++ join (w2 :: ws)) with (String " " (join (w2 :: ws))).
      cbn [splitGo sepSpaces]. change (isSpace " ") with true. cbv iota.
      rewrite Ej at 1. rewrite E2 at 1. cbn [append sepSpaces].
      rewrite Hc2. now rewrite IH by discriminate. }
    rewrite (word_pieces sepSpaces _ _ _ _ sepSpaces_word Hcr Hs).
    now rewrite append_nil_r.
Qed.

Lemma trimEnd_word (w : string) :
  isWord w = true -> trimEnd w = w.
Proof.
  intros H. destruct (isWord_inv _ H) as (c & r & -> & Hc & Hr).
  clear H. revert c Hc. induction r as [|d r IH]; intros c Hc.
  - cbn [trimEnd]. now rewrite Hc.
  - cbn [forallb_str] in Hr. apply andb_prop in Hr as [Hd Hr].
    apply negb_true_iff in Hd.
    change (trimEnd (String c (String d r)))
      with (match trimEnd (String d r) with
            | "" => if isSpace c then "" else String c ""
            | r' => String c r'
            end).
    now rewrite (IH Hr d Hd).
Qed.

Lemma trimEnd_app_fixed (a b : string) :
  trimEnd b = b -> b <> "" -> trimEnd (a ++ b) = a ++ b.
Proof.
  intros Hb Hne. induction a as [|c a IH]; [exact Hb|].
  cbn [append trimEnd]. rewrite IH.
  destruct (a ++ b) eqn:E; [|reflexivity].
  destruct a; [cbn [append] in E; congruence | discriminate].
Qed.

Lemma join_words_nonempty (w : string) (ws : list string) :
  isWord w = true -> join (w :: ws) <> "".
Proof.
  intros H. apply join_nonempty.
  destruct (isWord_inv _ H) as (c & r & -> & _). discriminate.
Qed.

Lemma trim_join_words (ws : list string) :
  Forall (fun w => isWord w = true) ws -> trim (join ws) = join ws.
Proof.
  intros Hall. destruct ws as [|w ws]; [reflexivity|].
  unfold trim.
  assert (Hs : trimStart (join (w :: ws)) = join (w :: ws)).
  { apply trimStart_fixed. destruct (join_head w ws) as (rest & -> & _).
    inversion Hall as [|? ? Hw _]; subst.
    destruct (isWord_inv _ Hw) as (c & r & -> & Hc & _).
    cbn [append sepSpaces]. now rewrite Hc. }
  rewrite Hs. clear Hs.
  induction Hall as [|x xs Hx Hxs IH]; [reflexivity|].
  destruct xs as [|y ys]; [now apply trimEnd_word|].
  rewrite join_cons2.
  replace (x ++ " " ++ join (y :: ys)) with ((x ++ " ") ++ join (y :: ys))
    by apply append_assoc.
  apply trimEnd_app_fixed; [exact IH|].
  inversion Hxs; subst. now apply join_words_nonempty.
Qed.

Lemma word_noTab (w : string) :
  forallb_str (fun c => negb (isSpace c)) w = true -> noTab w = true.
Proof.
  unfold noTab. induction w as [|c w IH]; [reflexivity|].
  cbn [forallb_str]. intros H. apply andb_prop in H as [Hc Hw].
  rewrite (IH Hw), andb_true_r.
  destruct (Ascii.eqb_spec c TAB) as [->|]; [discriminate | reflexivity].
Qed.

Lemma noTab_app (a b : string) :
  noTab (a ++ b) = (noTab a && noTab b)%bool.
Proof.
  unfold noTab. induction a as [|c a IH]; [reflexivity|].
  cbn [append forallb_str]. now rewrite IH, andb_assoc.
Qed.

Lemma join_noTab (ws : list string) :
  Forall (fun w => isWord w = true) ws -> noTab (join ws) = true.
Proof.
  intros Hall. induction Hall as [|w ws Hw Hws IH]; [reflexivity|].
  destruct (isWord_inv _ Hw) as (c & r & E & Hc & Hr).
  assert (Hn : noTab w = true).
  { apply word_noTab. rewrite E. cbn [forallb_str]. now rewrite Hc, Hr. }
  destruct ws as [|w2 ws]; [exact Hn|].
  rewrite join_cons2, !noTab_app, Hn, IH. reflexivity.
Qed.

(** After a space, a word other than "vs" and "@" does not complete a
    matchup separator. *)
Lemma sepMatchup_after_space (w rest : string) :
  isWord w = true -> w <> "vs" -> w <> "@" ->
  (rest = "" \/ exists r, rest = String " " r) ->
  sepMatchup (String " " (w ++ rest)) = 0%nat.
Proof.
  intros Hw Hvs Hat Hrest.
  destruct (isWord_inv _ Hw) as (a & w1 & -> & Ha & Hw1).
  unfold sepMatchup, startsWith. cbn [append String.prefix].
  destruct (ascii_dec " " " ") as [_|]; [|congruence].
  assert (V : (if ascii_dec "v" a
               then String.prefix "s " (w1 ++ rest) else false) = false).
  { destruct (ascii_dec "v" a) as [<-|]; [|reflexivity].
    destruct w1 as [|b w2].
    - destruct Hrest as [->|(r & ->)]; [reflexivity|].
      cbn [append String.prefix].
      destruct (ascii_dec "s" " "); [discriminate | reflexivity].
    - cbn [append String.prefix].
      destruct (ascii_dec "s" b) as [<-|]; [|reflexivity].
      destruct w2 as [|c w3]; [congruence|].
      cbn [forallb_str] in Hw1. apply andb_prop in Hw1 as [_ Hw1].
      apply andb_prop in Hw1 as [Hc _]. apply negb_true_iff in Hc.
      cbn [append String.prefix].
      destruct (ascii_dec " " c) as [<-|]; [discriminate | reflexivity]. }
  rewrite V.
  destruct (ascii_dec "@" a) as [<-|]; [|reflexivity].
  destruct w1 as [|b w2]; [congruence|].
  cbn [forallb_str] in Hw1. apply andb_prop in Hw1 as [Hb _].
  apply negb_true_iff in Hb. cbn [append String.prefix].
  destruct (ascii_dec " " b) as [<-|]; [discriminate | reflexivity].
Qed.

Lemma split_matchup_words (ws : list string) :
  Forall (fun w => isWord w = true) ws ->
  ~ In "vs" ws -> ~ In "@" ws ->
  split sepMatchup (join ws) = [join ws].
Proof.
  unfold split. intros Hall.
  induction Hall as [|w ws Hw Hws IH]; intros Hvs Hat; [reflexivity|].
  destruct (isWord_inv _ Hw) as (c & r & E & Hc & Hr).
  assert (Hcr : forallb_str (fun c => negb (isSpace c)) w = true).
  { rewrite E. cbn [forallb_str]. now rewrite Hc, Hr. }
  destruct ws as [|w2 ws].
  - change (join [w]) with w. rewrite <- (append_nil_r w) at 1.
    rewrite (word_pieces sepMatchup _ "" "" [] sepMatchup_word Hcr eq_refl).
    now rewrite append_nil_r.
  - rewrite join_cons2.
    assert (Hs : splitGo sepMatchup 0 (" " ++ join (w2 :: ws))
                 = [" " ++ join (w2 :: ws)]).
    { change (" " ++ join (w2 :: ws)) with (String " " (join (w2 :: ws))).
      cbn [splitGo].
      destruct (join_head w2 ws) as (rest & Ej & Hrest).
      inversion Hws as [|? ? Hw2 _]; subst.
      assert (Z : sepMatchup (String " " (join (w2 :: ws))) = 0%nat).
      { rewrite Ej. apply sepMatchup_after_space; auto.
        - intros ->. apply Hvs. right. now left.
        - intros ->. apply Hat. right. now left. }
      rewrite Z, IH; [reflexivity | |].
      - intros H. apply Hvs. now right.
      - intros H. apply Hat. now right. }
    now rewrite (word_pieces sepMatchup _ _ _ _ sepMatchup_word Hcr Hs).
Qed.

Lemma partsOf_join_words (ws : list string) :
  ws <> [] ->
  Forall (fun w => isWord w = true) ws ->
  ~ In "vs" ws -> ~ In "@" ws ->
  TeamAware.partsOf (join ws) = Ret ws
  /\ Basic.partsOf (join ws) = Ret ws.
Proof.
  intros Hne Hall Hvs Hat.
  assert (B : Basic.partsOf (join ws) = Ret ws).
  { unfold Basic.partsOf, Basic.cleanLine.
    rewrite (split_matchup_words _ Hall Hvs Hat).
    change (at_ [join ws] 0) with (Some (join ws)). cbn [receiver bind].
    now rewrite (trim_join_words _ Hall), (split_spaces_words _ Hne Hall). }
  split; [|exact B].
  now rewrite <- (noTab_partsOf _ (join_noTab _ Hall)).
Qed.

(** X23. Joining words by single spaces and tokenizing the line gives the
    words back, for both parsers, as long as no word is "vs" or "@": the
    line is not cut, not trimmed and split at the spaces only.  (A word is
    a non-empty string without white space.) *)
Theorem tokens_round_trip (ws : list string) :
  ws <> [] ->
  Forall (fun w => isWord w = true) ws ->
  ~ In "vs" ws -> ~ In "@" ws ->
  TeamAware.partsOf (join ws) = Ret ws
  /\ Basic.partsOf (join ws) = Ret ws.
Proof. exact (partsOf_join_words ws). Qed.

Lemma tokens_round_trip_witness :
  TeamAware.partsOf (join ["3."; "Amon-Ra"; "St."; "Brown"; "DET"; "WR3"])
  = Ret ["3."; "Amon-Ra"; "St."; "Brown"; "DET"; "WR3"]
  /\ Basic.partsOf (join ["3."; "Amon-Ra"; "St."; "Brown"; "DET"; "WR3"])
     = Ret ["3."; "Amon-Ra"; "St."; "Brown"; "DET"; "WR3"].
Proof.
  apply tokens_round_trip.
  - discriminate.
  - repeat constructor.
  - simpl. intuition discriminate.
  - simpl. intuition discriminate.
Defined.

(** X24. A line written as a rank token, one or more name words and one of
    the three endings, all separated by single spaces and none of them
    "vs" or "@", is parsed by the team-aware parser into the record with
    that rank, those name words joined by single spaces, the position and
    positional rank of the position token and the team of the ending. *)
Theorem written_line_is_parsed (r : string) (rk : Z) (names ps : list string)
    (info : Pos.t) (ti : option string) :
  parseInt (stripRankSuffix r) = Some rk ->
  names <> [] ->
  Layout names info ps ti ->
  Forall (fun w => isWord w = true) (r :: ps) ->
  ~ In "vs" (r :: ps) -> ~ In "@" (r :: ps) ->
  TeamAware.parseLine (join (r :: ps))
  = Ret (Some (mkPlayer rk (join names) info ti)).
Proof.
  intros Er Hne Lay Hall Hvs Hat.
  apply aware_parseLine_layout.
  exists r, rk, names, info, ps, ti. repeat split; auto.
  now apply partsOf_join_words.
Qed.

Lemma written_line_is_parsed_witness :
  TeamAware.parseLine (join ["7)"; "Ja'Marr"; "Chase"; "CIN"; "WR2"])
  = Ret (Some {| rank := 7; name := "Ja'Marr Chase"; position := "WR";
                 positionalRank := Some 2; team := Some "CIN" |}).
Proof.
  apply (written_line_is_parsed "7)" 7 ["Ja'Marr"; "Chase"]
           ["Ja'Marr"; "Chase"; "CIN"; "WR2"]
           {| Pos.base := "WR"; Pos.rank := Some 2 |} (Some "CIN")).
  - reflexivity.
  - discriminate.
  - apply (TeamPosition ["Ja'Marr"; "Chase"] _ "CIN" "WR2"); reflexivity.
  - repeat constructor.
  - simpl. intuition discriminate.
  - simpl. intuition discriminate.
Defined.
